(** * otter-heatmap: layout and colour arithmetic of the activity heatmap

    A shallow embedding of [src/Heatmap.tsx] (the [Heatmap] component's
    layout computation and, in module [View], what it renders: shapes,
    labels, tooltip and hover state) and of the colour utility
    [getColorForCount] / [shadeColor], with the properties of the
    specification proved about them, followed by further properties of
    the component.

    Conventions of the embedding:
    - a JavaScript [Date] is its time value, an integer number of
      milliseconds since the epoch ([Z]); the host's local time zone is a
      fixed offset [tza] (no daylight-saving transitions);
    - counts and pixel sizes are integers ([Z]), and the layout is
      computed on integers: below [2 ^ 49] the binary64 quotient by 7 has
      the floor and the ceiling of the exact one
      ([binary64_week_quotient]);
    - the fractional arithmetic of the colour utility is binary64: a
      number is the rational it denotes, and every operation rounds its
      exact result to 53 significant bits, ties to even (module [Number];
      the exponent range is not limited, so there is neither overflow nor
      gradual underflow).  Module [Binary64] runs the same computation on
      the bit-level operations of the standard library, for comparison on
      concrete inputs;
    - [data] is a finite map from strings to integers;
    - module [Reference] writes the key of a day and the value of a
      hexadecimal string without the functions of the embedding; keys and
      colours are stated against it. *)

From Stdlib Require Import ZArith QArith Qround Qminmax Qpower Lia Lqa.
From Stdlib Require Import Ascii String SpecFloat.
From Stdlib Require HexString.
From stdpp Require Import base numbers list sorting strings gmap pretty.

Local Open Scope Z_scope.

(** ** Platform primitives: [Date], date-fns *)

Module JSDate.

Definition msPerDay : Z := 86400000.

(** ECMAScript [Day(t)]: the day number of a time value. *)
Definition Day (t : Z) : Z := t / msPerDay.

(** Civil date of a day number (proleptic Gregorian calendar):
    year, month in [1..12], day of month in [1..31]. *)
Definition civil (days : Z) : Z * Z * Z :=
  let z := days + 719468 in
  let era := z / 146097 in
  let doe := z - era * 146097 in
  let yoe := (doe - doe / 1460 + doe / 36524 - doe / 146096) / 365 in
  let doy := doe - (365 * yoe + yoe / 4 - yoe / 100) in
  let mp := (5 * doy + 2) / 153 in
  let d := doy - (153 * mp + 2) / 5 + 1 in
  let m := if mp <? 10 then mp + 3 else mp - 9 in
  let y := yoe + era * 400 + (if m <=? 2 then 1 else 0) in
  (y, m, d).

(** Decimal digits of a natural number, zero-padded to [width]. *)
Definition pad (width : nat) (n : Z) : string :=
  let s := pretty (Z.to_N n) in
  String.concat "" (replicate (width - String.length s) "0") +:+ s.

(** [Date.prototype.toISOString] restricted to its date part: four-digit
    years for 0..9999, the expanded six-digit signed form otherwise. *)
Definition isoDateString (days : Z) : string :=
  let '(y, m, d) := civil days in
  let year :=
    if (0 <=? y) && (y <=? 9999) then pad 4 y
    else (if 0 <=? y then "+" else "-") +:+ pad 6 (Z.abs y) in
  year +:+ "-" +:+ pad 2 m +:+ "-" +:+ pad 2 d.

Definition monthNames : list string :=
  ["Jan"; "Feb"; "Mar"; "Apr"; "May"; "Jun";
   "Jul"; "Aug"; "Sep"; "Oct"; "Nov"; "Dec"].

Section LocalTime.
(** Offset of local time from UTC, in milliseconds. *)
Variable tza : Z.

Definition LocalTime (t : Z) : Z := t + tza.

(** [date.getDay()]: 0 is Sunday; the epoch was a Thursday. *)
Definition getDay (t : Z) : Z := (Day (LocalTime t) + 4) mod 7.

(** [date.getMonth()]: 0 is January. *)
Definition getMonth (t : Z) : Z :=
  let '(_, m, _) := civil (Day (LocalTime t)) in m - 1.

(** [date.getFullYear()]. *)
Definition getFullYear (t : Z) : Z :=
  let '(y, _, _) := civil (Day (LocalTime t)) in y.

(** [date.toLocaleString("default", { month: "short" })]. *)
Definition monthShort (t : Z) : string :=
  default "" (monthNames !! Z.to_nat (getMonth t)).

(** date-fns [addDays]: the same local time of day, [amount] days on. *)
Definition addDays (t amount : Z) : Z := t + amount * msPerDay.

(** date-fns [differenceInDays]: the number of full days between the
    two dates, truncated toward zero. *)
Definition differenceInDays (later earlier : Z) : Z :=
  (later - earlier) `quot` msPerDay.
End LocalTime.

(** [date.toISOString().slice(0, 10)]; always in UTC. *)
Definition isoDate (t : Z) : string :=
  String.substring 0 10 (isoDateString (Day t)).

End JSDate.

(** ** Binary64 numbers *)

Module Number.

(** [2 ^ e] for an integer exponent. *)
Definition pow2 (e : Z) : Q := (2 ^ e)%Q.

(** The binary exponent of a positive rational: the [e] with
    [2 ^ e <= q < 2 ^ (e + 1)]. *)
Definition ilog2 (q : Q) : Z :=
  let e := Z.log2 (Qnum q) - Z.log2 (Zpos (Qden q)) in
  if Qle_bool (pow2 e) q then e else e - 1.

(** The nearest integer, ties to the even one. *)
Definition rne (q : Q) : Z :=
  let f := Qfloor q in
  match (q - inject_Z f ?= 1 # 2)%Q with
  | Lt => f
  | Gt => f + 1
  | Eq => if Z.even f then f else f + 1
  end.

(** Rounding of a positive rational to 53 significant bits. *)
Definition rndPos (q : Q) : Q :=
  let e := ilog2 q - 52 in
  (inject_Z (rne (q * pow2 (- e))) * pow2 e)%Q.

(** Rounding to the nearest binary64 number. *)
Definition rnd (q : Q) : Q :=
  let q := Qred q in
  match (q ?= 0)%Q with
  | Eq => 0%Q
  | Gt => rndPos q
  | Lt => (- rndPos (- q))%Q
  end.

(** An integer as a number, and the four operations. *)
Definition ofZ (z : Z) : Q := rnd (inject_Z z).
Definition add (a b : Q) : Q := rnd (a + b).
Definition sub (a b : Q) : Q := rnd (a - b).
Definition mul (a b : Q) : Q := rnd (a * b).
Definition div (a b : Q) : Q := rnd (a / b).

(** An integer that is a binary64 number. *)
Definition representable (z : Z) : Prop := (ofZ z == inject_Z z)%Q.

#[global] Arguments pow2 : simpl never.
#[global] Arguments ilog2 : simpl never.
#[global] Arguments rne : simpl never.
#[global] Arguments rndPos : simpl never.
#[global] Arguments rnd : simpl never.

End Number.

(** ** The colour utility *)

Module Utils.
Import Number.

(** Value of a hexadecimal digit. *)
Definition hexDigit (c : ascii) : option Z :=
  let n := Z.of_nat (nat_of_ascii c) in
  if (48 <=? n) && (n <=? 57) then Some (n - 48)
  else if (97 <=? n) && (n <=? 102) then Some (n - 87)
  else if (65 <=? n) && (n <=? 70) then Some (n - 55)
  else None.

(** The longest prefix of hexadecimal digits, most significant first. *)
Fixpoint hexPrefix (s : string) : list Z :=
  match s with
  | EmptyString => []
  | String c s' =>
      match hexDigit c with
      | Some d => d :: hexPrefix s'
      | None => []
      end
  end.

Definition isWhiteSpace (c : ascii) : bool :=
  let n := nat_of_ascii c in
  bool_decide (n = 32 ∨ n = 9 ∨ n = 10 ∨ n = 11 ∨ n = 12 ∨ n = 13)%nat.

Fixpoint trimStart (s : string) : string :=
  match s with
  | String c s' => if isWhiteSpace c then trimStart s' else s
  | EmptyString => s
  end.

(** [parseInt(s, 16)]; [None] stands for [NaN]. *)
Definition parseInt16 (s : string) : option Z :=
  let s := trimStart s in
  let '(sign, s) :=
    match s with
    | String "-" s' => (-1, s')
    | String "+" s' => (1, s')
    | _ => (1, s)
    end in
  let s :=
    match s with
    | String "0" (String "x" s') | String "0" (String "X" s') => s'
    | _ => s
    end in
  match hexPrefix s with
  | [] => None
  | ds => Some (sign * foldl (fun acc d => 16 * acc + d) 0 ds)
  end.

(** [Math.round]: the nearest integer, ties toward positive infinity. *)
Definition round (q : Q) : Z := Qfloor (q + (1 # 2)).

(** [Math.round(255 - (255 - channel) * intensity)]. *)
Definition mixValue (intensity : Q) (channel : Z) : Z :=
  round (sub 255 (mul (sub 255 (ofZ channel)) intensity)).

(** The closure [mix] of [shadeColor]; a [NaN] channel stays [NaN]. *)
Definition mix (intensity : Q) (channel : option Z) : option Z :=
  match channel with
  | Some ch => Some (mixValue intensity ch)
  | None => None
  end.

(** Conversion of a channel to a string inside the template literal. *)
Definition showNumber (v : option Z) : string :=
  match v with
  | Some z => pretty z
  | None => "NaN"
  end.

Definition rgb (r g b : option Z) : string :=
  "rgb(" +:+ showNumber r +:+ ", " +:+ showNumber g +:+ ", "
    +:+ showNumber b +:+ ")".

(** The three channels parsed by [shadeColor]. *)
Definition channels (color : string) : option Z * option Z * option Z :=
  (parseInt16 (String.substring 1 2 color),
   parseInt16 (String.substring 3 2 color),
   parseInt16 (String.substring 5 2 color)).

Definition shadeColor (color : string) (intensity : Q) : string :=
  let '(r, g, b) := channels color in
  rgb (mix intensity r) (mix intensity g) (mix intensity b).

(** The literals [0.35] and [0.9]. *)
Definition c0_35 : Q := rnd (35 # 100).
Definition c0_9 : Q := rnd (9 # 10).

(** [0.35 + 0.9 * q] for a quotient [q] that is still to be rounded. *)
Definition term (q : Q) : Q := add c0_35 (mul c0_9 (rnd q)).

(** [0.35 + 0.9 * (count / maxCount)], for a divisor other than zero. *)
Definition rawIntensity (count maxCount : Z) : Q :=
  add c0_35 (mul c0_9 (div (ofZ count) (ofZ maxCount))).

(** [Math.min(0.35 + 0.9 * (count / maxCount), 1)] for a positive count.
    A positive count divided by zero is [Infinity] in JavaScript, and the
    minimum with 1 is then 1. *)
Definition intensity (count maxCount : Z) : Q :=
  if maxCount =? 0 then 1%Q else Qmin (rawIntensity count maxCount) 1.

Definition getColorForCount
    (count : Z) (baseColor : string) (maxCount : Z) : string :=
  if count <=? 0 then "#ebedf0"
  else shadeColor baseColor (intensity count maxCount).

(** The channel values behind the string built by [shadeColor]. *)
Definition shadeChannels (color : string) (intensity : Q)
    : option Z * option Z * option Z :=
  let '(r, g, b) := channels color in
  (mix intensity r, mix intensity g, mix intensity b).

(** A well-formed base colour: [#] followed by exactly six hexadecimal
    digits. *)
Fixpoint allHex (s : string) : bool :=
  match s with
  | EmptyString => true
  | String c s' => bool_decide (is_Some (hexDigit c)) && allHex s'
  end.

Definition wellFormed (color : string) : bool :=
  match color with
  | String "#" s => bool_decide (String.length s = 6%nat) && allHex s
  | _ => false
  end.

End Utils.

(** ** The colour arithmetic on bit-level binary64

    The same computation as [Utils.intensity] and [Utils.mix], carried out
    with the standard library's IEEE 754 operations on sign, mantissa and
    exponent. *)

Module Binary64.

Definition prec : Z := 53.
Definition emax : Z := 1024.

Definition ofZ (z : Z) : spec_float := binary_normalize prec emax z 0 false.

Definition add := SFadd prec emax.
Definition sub := SFsub prec emax.
Definition mul := SFmul prec emax.
Definition div := SFdiv prec emax.

(** The literals [0.35] and [0.9]: the doubles nearest to 35/100 and to
    9/10. *)
Definition c0_35 : spec_float := div (ofZ 35) (ofZ 100).
Definition c0_9 : spec_float := div (ofZ 9) (ofZ 10).

(** The rational a finite number denotes. *)
Definition toQ (f : spec_float) : option Q :=
  match f with
  | S754_zero _ => Some 0%Q
  | S754_finite s m e =>
      Some (inject_Z (if s then Zneg m else Zpos m) * Number.pow2 e)%Q
  | _ => None
  end.

(** [f] is finite and denotes [q]. *)
Definition denotes (f : spec_float) (q : Q) : bool :=
  match toQ f with
  | Some r => Qeq_bool r q
  | None => false
  end.

Definition isNaN (a : spec_float) : bool :=
  match a with S754_nan => true | _ => false end.

(** [Math.min] of two numbers. *)
Definition min (a b : spec_float) : spec_float :=
  if isNaN a || isNaN b then S754_nan
  else if SFltb a b then a else b.

Definition rawIntensity (count maxCount : Z) : spec_float :=
  add c0_35 (mul c0_9 (div (ofZ count) (ofZ maxCount))).

(** [Math.min(0.35 + 0.9 * (count / maxCount), 1)]. *)
Definition intensity (count maxCount : Z) : spec_float :=
  min (rawIntensity count maxCount) (ofZ 1).

(** [Math.round]; [None] stands for [NaN] and the infinities. *)
Definition round (f : spec_float) : option Z :=
  match f with
  | S754_zero _ => Some 0
  | S754_finite s m e =>
      let n := if s then Zneg m else Zpos m in
      Some (if 0 <=? e then n * 2 ^ e
            else (2 * n + 2 ^ (- e)) / 2 ^ (1 - e))
  | _ => None
  end.

Definition mix (intensity : spec_float) (channel : option Z) : option Z :=
  match channel with
  | Some ch => round (sub (ofZ 255) (mul (sub (ofZ 255) (ofZ ch)) intensity))
  | None => None
  end.

Definition shadeColor (color : string) (intensity : spec_float) : string :=
  let '(r, g, b) := Utils.channels color in
  Utils.rgb (mix intensity r) (mix intensity g) (mix intensity b).

Definition getColorForCount
    (count : Z) (baseColor : string) (maxCount : Z) : string :=
  if count <=? 0 then "#ebedf0"
  else shadeColor baseColor (intensity count maxCount).

End Binary64.

(** ** The component's layout computation *)

Module Heatmap.
Import JSDate Utils.

Record HeatmapProps := {
  data : gmap string Z;
  startDate : Z;
  endDate : Z;
  baseColor : string;
  cellSize : Z;
  cellSpacing : Z;
  weekStart : Z
}.

Record Cell := { date : Z; count : Z; x : Z; y : Z }.

Record MonthLabel := { month : string; label_x : Z }.

Section Render.
Variable tza : Z.
Variable p : HeatmapProps.

Definition alignedStart : Z :=
  addDays (startDate p)
    (- ((getDay tza (startDate p) - weekStart p + 7) `rem` 7)).

Definition totalDays : Z :=
  differenceInDays (endDate p) alignedStart + 1.

(** [Math.ceil(totalDays / 7)], on the exact quotient. *)
Definition totalWeeks : Z := Qceiling (inject_Z totalDays / 7).

(** [Math.max(...Object.values(data), 1)]. *)
Definition maxCount : Z := foldr Z.max 1 (map_to_list (data p)).*2.

(** [data[key] || 0]: an absent key and a zero value both give 0. *)
Definition countAt (key : string) : Z :=
  match data p !! key with
  | Some v => if v =? 0 then 0 else v
  | None => 0
  end.

(** The body of the cell loop at index [i]; [weekIndex] is the floor of
    the exact quotient. *)
Definition cellAt (i : Z) : Cell :=
  let current := addDays alignedStart i in
  let count := countAt (isoDate current) in
  let weekIndex := Qfloor (inject_Z i / 7) in
  let dayIndex := i `rem` 7 in
  {| date := current;
     count := count;
     x := weekIndex * (cellSize p + cellSpacing p);
     y := dayIndex * (cellSize p + cellSpacing p) |}.

(** [for (let i = 0; i < totalDays; i++) cells.push(...)]. *)
Definition cells : list Cell :=
  foldl (fun cells i => cells ++ [cellAt i]) [] (seqZ 0 totalDays).

(** One iteration of [cells.forEach] in the month-label pass; the state
    is [seenMonths] and [monthLabels]. *)
Definition labelStep (st : gset string * list MonthLabel) (cell : Cell)
    : gset string * list MonthLabel :=
  let '(seenMonths, monthLabels) := st in
  if date cell <? startDate p then st
  else
    let month := monthShort tza (date cell) in
    if bool_decide (month ∈ seenMonths) then st
    else ({[month]} ∪ seenMonths,
          monthLabels ++ [{| month := month; label_x := x cell |}]).

Definition monthLabels : list MonthLabel :=
  (foldl labelStep (∅, []) cells).2.

(** Vocabulary for the month-label pass: a cell is visible when it
    passes the guard [cell.date < startDate]; its month is the name the
    pass computes for it. *)
Definition visible (cell : Cell) : Prop := startDate p <= date cell.

#[global] Instance visible_dec (cell : Cell) : Decision (visible cell).
Proof. unfold visible. apply _. Defined.

Definition monthOf (cell : Cell) : string := monthShort tza (date cell).

Definition labelOf (cell : Cell) : MonthLabel :=
  {| month := monthOf cell; label_x := x cell |}.

(** [cell] sits at index [i] of [cs], is visible, and no visible cell
    before it has the same month name. *)
Definition firstOfMonth (cs : list Cell) (i : nat) (cell : Cell) : Prop :=
  cs !! i = Some cell
  /\ visible cell
  /\ forall j c', (j < i)%nat -> cs !! j = Some c' -> visible c' ->
       monthOf c' <> monthOf cell.

(** The calendar month of a cell: year and month of the year. *)
Definition calendarMonth (cell : Cell) : Z * Z :=
  (getFullYear tza (date cell), getMonth tza (date cell)).

(** State of the month-label pass after the cells [pre]. *)
Definition labels_inv (pre : list Cell)
    (st : gset string * list MonthLabel) : Prop :=
  (forall m, m ∈ st.1 <-> exists c, c ∈ pre /\ visible c /\ monthOf c = m)
  /\ (forall m, m ∈ month <$> st.2 <-> m ∈ st.1)
  /\ NoDup (month <$> st.2)
  /\ exists idx,
       StronglySorted lt idx
       /\ Forall (fun i => i < length pre)%nat idx
       /\ Forall2 (fun l i => exists c, firstOfMonth pre i c /\ l = labelOf c)
            st.2 idx.

Definition svgWidth : Z :=
  totalWeeks * (cellSize p + cellSpacing p) + 50.

Definition svgHeight : Z := 7 * (cellSize p + cellSpacing p) + 20.

(** The fill of a cell's shape. *)
Definition cellColor (cell : Cell) : string :=
  getColorForCount (count cell) (baseColor p) maxCount.

End Render.

(** A request with the component's default options. *)
Definition props (data : gmap string Z) (startDate endDate : Z)
    (weekStart : Z) : HeatmapProps :=
  {| data := data; startDate := startDate; endDate := endDate;
     baseColor := "#239a3b"; cellSize := 14; cellSpacing := 4;
     weekStart := weekStart |}.

End Heatmap.

Import JSDate Number Utils Heatmap.

(** ** Sample dates (UTC midnight) *)

Definition d2024_01_01 : Z := 1704067200000.  (* a Monday *)
Definition d2024_01_02 : Z := 1704153600000.
Definition d2024_01_03 : Z := 1704240000000.  (* a Wednesday *)

(** ** Sample requests *)

(** One Wednesday, weeks starting on Monday, one recorded day. *)
Definition one_wednesday : HeatmapProps :=
  props {[ "2024-01-01" := 5 ]} d2024_01_03 d2024_01_03 1.

(** From 2024-01-01 to 2025-01-30. *)
Definition thirteen_months : HeatmapProps :=
  props ∅ d2024_01_01 (addDays d2024_01_01 395) 0.

(** [endDate] one day before a Wednesday [startDate]. *)
Definition inverted_wednesday : HeatmapProps :=
  props ∅ d2024_01_03 d2024_01_02 0.

(** [endDate] two weeks before [startDate]. *)
Definition inverted_fortnight : HeatmapProps :=
  props ∅ d2024_01_03 (addDays d2024_01_03 (-14)) 0.

(** ** The rendering: shapes, labels, tooltip and hover state *)

Module View.
Import JSDate Number Utils Heatmap.

(** The fixed legend of weekday labels. *)
Definition weekLabels : list string :=
  ["Mon"; "Tue"; "Wed"; "Thu"; "Fri"; "Sat"; "Sun"].

(** Names of the weekdays, indexed by [getDay]. *)
Definition dayNames : list string :=
  ["Sun"; "Mon"; "Tue"; "Wed"; "Thu"; "Fri"; "Sat"].

(** [date.getDate()]: the day of the month in local time. *)
Definition getDate (tza t : Z) : Z :=
  let '(_, _, d) := civil (Day (LocalTime tza t)) in d.

(** date-fns [format(date, "MMM dd")]. *)
Definition formatMMMdd (tza t : Z) : string :=
  monthShort tza t +:+ " " +:+ pad 2 (getDate tza t).






(** The [rect] drawn for a cell. *)
Record RectShape := {
  rect_x : Z; rect_y : Z; rect_width : Z; rect_height : Z; rect_fill : string
}.

Definition rectOf (p : HeatmapProps) (cell : Cell) : RectShape :=
  {| rect_x := x cell + 50;
     rect_y := y cell + 20;
     rect_width := cellSize p;
     rect_height := cellSize p;
     rect_fill := cellColor p cell |}.

(** The [circle] drawn for a cell; [cellSize / 2] is a binary64
    quotient. *)
Record CircleShape := {
  circle_cx : Q; circle_cy : Q; circle_r : Q; circle_fill : string
}.

Definition circleOf (p : HeatmapProps) (cell : Cell) : CircleShape :=
  {| circle_cx := add (ofZ (x cell + 50)) (div (ofZ (cellSize p)) 2);
     circle_cy := add (ofZ (y cell + 20)) (div (ofZ (cellSize p)) 2);
     circle_r := div (ofZ (cellSize p)) 2;
     circle_fill := cellColor p cell |}.

(** The [text] element of a month label. *)
Record TextShape := { text_x : Z; text_y : Z; text_content : string }.

Definition monthText (label : MonthLabel) : TextShape :=
  {| text_x := label_x label + 50; text_y := 12; text_content := month label |}.

(** The number of padding days in front of [startDate]. *)
Definition padding (tza : Z) (p : HeatmapProps) : Z :=
  (getDay tza (startDate p) - weekStart p + 7) mod 7.


End View.

Import View.

(** ** Further sample requests *)

(** One hour ahead of UTC, in milliseconds. *)
Definition oneHourAhead : Z := 3600000.

(** The Wednesday of [one_wednesday] as a zone one hour ahead of UTC has
    it: local midnight is 23:00 UTC of the Tuesday. *)
Definition one_wednesday_ahead : HeatmapProps :=
  props {[ "2024-01-02" := 5 ]} (d2024_01_03 - oneHourAhead)
    (d2024_01_03 - oneHourAhead) 1.

(** ** Independent readings of keys and colours

    The key of a day and the value of a hexadecimal string, written
    without the functions of the embedding; the results of the embedding
    are stated against them. *)

Module Reference.

(** The decimal digit of the units of [n]. *)
Definition decimalDigit (n : Z) : ascii := ascii_of_N (48 + Z.to_N (n mod 10)).

(** The last [width] decimal digits of [n], in front of [rest]. *)
Fixpoint decimal (width : nat) (n : Z) (rest : string) : string :=
  match width with
  | O => rest
  | S w => decimal w (n / 10) (String (decimalDigit n) rest)
  end.

(** [YYYY-MM-DD]. *)
Definition ymdKey (y m d : Z) : string :=
  decimal 4 y (String "-" (decimal 2 m (String "-" (decimal 2 d "")))).


(** The value of a string of hexadecimal digits, as the standard library
    reads it. *)
Definition hexValue (s : string) : Z := Z.of_N (HexString.Raw.to_N s 0).

End Reference.

Import Reference.

(** ** Sample requests outside the usual ranges *)



(** Sunday 2024-01-07, at UTC midnight. *)
Definition d2024_01_07 : Z := 1704585600000.

(** [startDate] at noon of a Sunday, [endDate] at midnight of the same
    day, weeks starting on Sunday. *)
Definition inverted_sunday_noon : HeatmapProps :=
  props ∅ (d2024_01_07 + 43200000) d2024_01_07 0.

(** * Properties *)

(** ** Arithmetic of the platform primitives *)

Lemma Qfloor_div7 (i : Z) : Qfloor (inject_Z i / 7) = i / 7.
Proof.
  unfold Qfloor; simpl. change (Z.pos (1 * 7)) with 7. by rewrite Z.mul_1_r.
Qed.

Lemma Qceiling_div7 (n : Z) : Qceiling (inject_Z n / 7) = (n + 6) / 7.
Proof.
  unfold Qceiling, Qfloor; simpl. change (Z.pos (1 * 7)) with 7.
  rewrite Z.mul_1_r. Z.div_mod_to_equations. lia.
Qed.

Lemma getDay_addDays (tza t n : Z) :
  getDay tza (addDays t n) = (getDay tza t + n) mod 7.
Proof.
  unfold getDay, LocalTime, addDays, Day, msPerDay.
  replace (t + n * 86400000 + tza) with (t + tza + n * 86400000) by lia.
  rewrite Z.div_add by lia.
  rewrite Zplus_mod_idemp_l. f_equal; lia.
Qed.

Lemma getDay_range (tza t : Z) : 0 <= getDay tza t < 7.
Proof. unfold getDay. apply Z.mod_pos_bound; lia. Qed.

(** The month and the day of the month of a civil date are in range. *)
Lemma civil_ranges (days : Z) :
  let '(_, m, d) := civil days in 1 <= m <= 12 /\ 1 <= d <= 31.
Proof.
  unfold civil.
  set (z := days + 719468). set (era := z / 146097).
  set (doe := z - era * 146097).
  assert (0 <= doe <= 146096) as Hdoe
    by (subst doe era; Z.div_mod_to_equations; lia).
  clearbody doe. clear z era.
  set (yoe := (doe - doe / 1460 + doe / 36524 - doe / 146096) / 365).
  set (doy := doe - (365 * yoe + yoe / 4 - yoe / 100)).
  assert (0 <= doy <= 365) as Hdoy
    by (subst doy yoe; Z.div_mod_to_equations; lia).
  clearbody doy. set (mp := (5 * doy + 2) / 153).
  assert (0 <= mp <= 11) as Hmp by (subst mp; Z.div_mod_to_equations; lia).
  assert (1 <= doy - (153 * mp + 2) / 5 + 1 <= 31) as Hd
    by (subst mp; Z.div_mod_to_equations; lia).
  clearbody mp. destruct (Z.ltb_spec mp 10); split; (lia || done).
Qed.

(** A loop that pushes one element per iteration builds the image of the
    iterated range. *)
Lemma foldl_push {A B : Type} (f : A -> B) (l : list A) (acc : list B) :
  foldl (fun acc i => acc ++ [f i]) acc l = acc ++ (f <$> l).
Proof.
  revert acc. induction l as [|i l IH]; intros acc; simpl.
  - by rewrite app_nil_r.
  - rewrite IH. by rewrite <- app_assoc.
Qed.

Section Layout.
Variable tza : Z.
Variable p : HeatmapProps.

(** The backward shift of the alignment, in days. *)
Lemma shift_rem_mod :
  0 <= weekStart p <= 7 ->
  (getDay tza (startDate p) - weekStart p + 7) `rem` 7
  = (getDay tza (startDate p) - weekStart p + 7) mod 7.
Proof.
  intros Hw. pose proof (getDay_range tza (startDate p)).
  apply Z.rem_mod_nonneg; lia.
Qed.

Lemma cells_map : cells tza p = cellAt tza p <$> seqZ 0 (totalDays tza p).
Proof. unfold cells. by rewrite foldl_push. Qed.

Lemma length_cells : length (cells tza p) = Z.to_nat (totalDays tza p).
Proof. by rewrite cells_map, length_fmap, length_seqZ. Qed.

Lemma lookup_cells (i : Z) :
  0 <= i < totalDays tza p ->
  cells tza p !! Z.to_nat i = Some (cellAt tza p i).
Proof.
  intros Hi. rewrite cells_map, list_lookup_fmap.
  rewrite lookup_seqZ_lt by lia. simpl. f_equal. f_equal. lia.
Qed.

End Layout.

(** The alignment shifts [startDate] back by the padding days. *)
Lemma alignedStart_padding (tza : Z) (p : HeatmapProps) :
  weekStart p = 0 \/ weekStart p = 1 ->
  alignedStart tza p = addDays (startDate p) (- padding tza p)
  /\ 0 <= padding tza p <= 6.
Proof.
  intros Hw. pose proof (getDay_range tza (startDate p)) as Hd.
  unfold alignedStart, padding. rewrite shift_rem_mod by lia.
  split; [done|]. Z.div_mod_to_equations. lia.
Qed.

Lemma elem_of_cells (tza : Z) (p : HeatmapProps) (c : Cell) :
  c ∈ cells tza p <-> exists i, 0 <= i < totalDays tza p /\ c = cellAt tza p i.
Proof.
  rewrite cells_map, list_elem_of_fmap. split.
  - intros (i & -> & Hi). exists i. split; [|done].
    apply elem_of_seqZ in Hi. lia.
  - intros (i & Hi & ->). exists i. split; [done|]. apply elem_of_seqZ. lia.
Qed.

Lemma foldr_max_lower (l : list Z) : 1 <= foldr Z.max 1 l.
Proof. induction l as [|v l IH]; simpl; lia. Qed.

Lemma foldr_max_upper (l : list Z) (v : Z) : v ∈ l -> v <= foldr Z.max 1 l.
Proof.
  induction l as [|w l IH]; simpl.
  - by intros ?%elem_of_nil.
  - intros [->|Hin]%elem_of_cons; [lia|]. specialize (IH Hin). lia.
Qed.

Lemma foldr_max_attained (l : list Z) :
  foldr Z.max 1 l = 1 \/ foldr Z.max 1 l ∈ l.
Proof.
  induction l as [|w l IH]; simpl; [by left|].
  destruct (Z.max_spec w (foldr Z.max 1 l)) as [[_ ->]|[_ ->]].
  - destruct IH as [IH|IH]; [by left|]. right. by apply list_elem_of_further.
  - right. apply list_elem_of_here.
Qed.

Lemma elem_of_values (m : gmap string Z) (v : Z) :
  v ∈ (map_to_list m).*2 <-> exists k, m !! k = Some v.
Proof.
  rewrite list_elem_of_fmap. split.
  - intros [[k w] [-> Hkw]]. exists k. by apply elem_of_map_to_list.
  - intros [k Hk]. exists (k, v). split; [done|]. by apply elem_of_map_to_list.
Qed.

(** ** Claims about the layout *)

(** C3. For a week start of 0 or 1, [alignedStart] is [startDate] moved
    back by [(dayOfWeek(startDate) - weekStart + 7) mod 7] days, and it
    falls on the configured week-start weekday; with [weekStart = 1] and a
    Wednesday start it is exactly two days before [startDate]. *)
Theorem alignedStart_on_week_start (tza : Z) (p : HeatmapProps) :
  weekStart p = 0 \/ weekStart p = 1 ->
  alignedStart tza p
  = addDays (startDate p)
      (- ((getDay tza (startDate p) - weekStart p + 7) mod 7))
  /\ getDay tza (alignedStart tza p) = weekStart p
  /\ (weekStart p = 1 -> getDay tza (startDate p) = 3 ->
      alignedStart tza p = addDays (startDate p) (-2)).
Proof.
  intros Hw. pose proof (getDay_range tza (startDate p)) as Hd.
  assert (Hrem := shift_rem_mod tza p ltac:(lia)).
  unfold alignedStart. rewrite Hrem. split; [done|]. split.
  - rewrite getDay_addDays.
    set (d := getDay tza (startDate p)) in *.
    destruct Hw as [-> | ->]; Z.div_mod_to_equations; lia.
  - intros -> ->. reflexivity.
Qed.

Lemma alignedStart_on_week_start_witness :
  (weekStart one_wednesday = 0 \/ weekStart one_wednesday = 1)
  /\ alignedStart 0 one_wednesday
     = addDays (startDate one_wednesday)
         (- ((getDay 0 (startDate one_wednesday)
              - weekStart one_wednesday + 7) mod 7))
  /\ getDay 0 (alignedStart 0 one_wednesday) = weekStart one_wednesday
  /\ (weekStart one_wednesday = 1 ->
      getDay 0 (startDate one_wednesday) = 3 ->
      alignedStart 0 one_wednesday = addDays (startDate one_wednesday) (-2)).
Proof.
  assert (H : weekStart one_wednesday = 0 \/ weekStart one_wednesday = 1)
    by (right; reflexivity).
  split; [exact H | exact (alignedStart_on_week_start 0 one_wednesday H)].
Defined.

(** ** Decimal digits *)








(** ** The key of a day *)




(** The first cell of [one_wednesday] in full: Monday 2024-01-01, read
    under the key of that day. *)
Example first_cell_values :
  cells 0 one_wednesday !! 0%nat
  = Some {| date := d2024_01_01; count := 5; x := 0; y := 0 |}
  /\ civil (Day d2024_01_01) = (2024, 1, 1)
  /\ isoDate d2024_01_01 = "2024-01-01"
  /\ ymdKey 2024 1 1 = "2024-01-01"
  /\ data one_wednesday !! "2024-01-01" = Some 5.
Proof. repeat split; by vm_compute. Qed.


(** C7. [totalWeeks] is the ceiling of [totalDays / 7], the least number
    of whole weeks covering [totalDays]; the canvas is
    [totalWeeks * (cellSize + cellSpacing) + 50] wide and
    [7 * (cellSize + cellSpacing) + 20] high. *)
Theorem canvas_dimensions (tza : Z) (p : HeatmapProps) :
  totalWeeks tza p = (totalDays tza p + 6) / 7
  /\ 7 * (totalWeeks tza p - 1) < totalDays tza p <= 7 * totalWeeks tza p
  /\ svgWidth tza p = totalWeeks tza p * (cellSize p + cellSpacing p) + 50
  /\ svgHeight p = 7 * (cellSize p + cellSpacing p) + 20.
Proof.
  assert (H : totalWeeks tza p = (totalDays tza p + 6) / 7)
    by apply Qceiling_div7.
  split; [exact H|]. split; [|done]. rewrite H.
  Z.div_mod_to_equations. lia.
Qed.

(** C9. The maximum used for colour scaling is the largest value of
    [data] floored at 1: it is at least 1, bounds every value, and is 1 or
    a value of [data]; it is 1 for empty [data] and when no value exceeds
    1; hence the quotient [count / maxCount] never has a zero divisor. *)
Theorem maxCount_floored_at_one (p : HeatmapProps) :
  1 <= maxCount p
  /\ (forall k v, data p !! k = Some v -> v <= maxCount p)
  /\ (maxCount p = 1 \/ exists k, data p !! k = Some (maxCount p))
  /\ (data p = ∅ -> maxCount p = 1)
  /\ ((forall k v, data p !! k = Some v -> v <= 1) -> maxCount p = 1)
  /\ maxCount p <> 0
  /\ (forall count,
        intensity count (maxCount p)
        = Qmin (rawIntensity count (maxCount p)) 1).
Proof.
  pose proof (foldr_max_lower (map_to_list (data p)).*2) as Hlow.
  pose proof (foldr_max_attained (map_to_list (data p)).*2) as Hatt.
  fold (maxCount p) in Hlow, Hatt.
  repeat split.
  - exact Hlow.
  - intros k v Hkv. apply foldr_max_upper, elem_of_values. eauto.
  - destruct Hatt as [?|Hin]; [by left|]. right. by apply elem_of_values.
  - intros He. unfold maxCount. by rewrite He, map_to_list_empty.
  - intros Hall. destruct Hatt as [?|[k Hk]%elem_of_values]; [done|].
    specialize (Hall _ _ Hk). lia.
  - lia.
  - intros c. unfold intensity.
    destruct (Z.eqb_spec (maxCount p) 0); [lia|done].
Qed.

Lemma totalDays_nonpos (tza : Z) (p : HeatmapProps) :
  totalDays tza p <= 0 <-> endDate p + msPerDay <= alignedStart tza p.
Proof.
  unfold totalDays, differenceInDays, msPerDay.
  Z.quot_rem_to_equations. lia.
Qed.

Lemma cells_nil_iff (tza : Z) (p : HeatmapProps) :
  cells tza p = [] <-> totalDays tza p <= 0.
Proof.
  rewrite <- length_zero_iff_nil, length_cells. lia.
Qed.

(** With [endDate] before [startDate], whatever the loop still produces is
    alignment padding of at most six cells, or the single cell of
    [startDate] itself when the two dates are less than a day apart. *)
Lemma inverted_range_at_most_six (tza : Z) (p : HeatmapProps) :
  weekStart p = 0 \/ weekStart p = 1 ->
  endDate p < startDate p ->
  (length (cells tza p) <= 6)%nat.
Proof.
  intros Hw Hlt. rewrite length_cells.
  pose proof (getDay_range tza (startDate p)) as Hd.
  assert (Hrem := shift_rem_mod tza p ltac:(lia)).
  unfold totalDays, differenceInDays, alignedStart, addDays. rewrite Hrem.
  set (k := (getDay tza (startDate p) - weekStart p + 7) mod 7).
  assert (0 <= k < 7) by (apply Z.mod_pos_bound; lia).
  unfold msPerDay. Z.quot_rem_to_equations. lia.
Qed.

(** ** Rounding to binary64 *)

Lemma Qfloor_unique (q : Q) (z : Z) :
  (inject_Z z <= q)%Q -> (q < inject_Z (z + 1))%Q -> Qfloor q = z.
Proof.
  intros Hlo Hhi.
  pose proof (Qfloor_le q) as Hfl. pose proof (Qlt_floor q) as Hlt.
  assert (Qfloor q < z + 1).
  { rewrite Zlt_Qlt. eapply Qle_lt_trans; eassumption. }
  assert (z < Qfloor q + 1).
  { rewrite Zlt_Qlt. eapply Qle_lt_trans; eassumption. }
  lia.
Qed.

Lemma pow2_pos (e : Z) : (0 < pow2 e)%Q.
Proof. apply Qpower_0_lt. reflexivity. Qed.

Lemma pow2_add (a b : Z) : (pow2 (a + b) == pow2 a * pow2 b)%Q.
Proof. apply Qpower_plus. discriminate. Qed.

Lemma pow2_le (a b : Z) : a <= b -> (pow2 a <= pow2 b)%Q.
Proof. intros H. apply Qpower_le_compat_l; [done|discriminate]. Qed.

Lemma pow2_lt_inv (a b : Z) : (pow2 a < pow2 b)%Q -> a < b.
Proof. intros H. eapply Qpower_lt_compat_l_inv; [exact H|reflexivity]. Qed.

Lemma pow2_Z (e : Z) : 0 <= e -> (pow2 e == inject_Z (2 ^ e))%Q.
Proof. intros H. unfold pow2. by rewrite Zpower_Qpower. Qed.

Lemma pow2_ratio (a b : Z) :
  0 <= a -> 0 <= b -> (pow2 (a - b) == inject_Z (2 ^ a) / inject_Z (2 ^ b))%Q.
Proof.
  intros Ha Hb. replace (a - b) with (a + - b) by lia.
  rewrite pow2_add. unfold Qdiv. rewrite <- !pow2_Z by done.
  unfold pow2. by rewrite Qpower_opp.
Qed.

Lemma ilog2_bounds (q : Q) :
  (0 < q)%Q -> (pow2 (ilog2 q) <= q /\ q < pow2 (ilog2 q + 1))%Q.
Proof.
  intros Hq. destruct q as [n d]. unfold ilog2; cbn [Qnum Qden].
  assert (0 < n) as Hn by (unfold Qlt in Hq; simpl in Hq; lia).
  pose proof (Z.log2_spec n Hn) as [Hn1 Hn2].
  pose proof (Z.log2_spec (Z.pos d) ltac:(lia)) as [Hd1 Hd2].
  pose proof (Z.log2_nonneg n) as Ha. pose proof (Z.log2_nonneg (Z.pos d)) as Hb.
  set (a := Z.log2 n) in *. set (b := Z.log2 (Z.pos d)) in *.
  assert (0 < 2 ^ a) by (apply Z.pow_pos_nonneg; lia).
  assert (0 < 2 ^ b) by (apply Z.pow_pos_nonneg; lia).
  assert (n # d < pow2 (a - b + 1))%Q as Hup.
  { replace (a - b + 1) with (Z.succ a - b) by lia.
    rewrite pow2_ratio by lia. apply Qlt_shift_div_l.
    - change 0%Q with (inject_Z 0). rewrite <- Zlt_Qlt. lia.
    - unfold Qlt; simpl. rewrite Z.pow_succ_r in Hn2 |- * by done. nia. }
  assert (pow2 (a - b - 1) <= n # d)%Q as Hlow.
  { replace (a - b - 1) with (a - Z.succ b) by lia.
    rewrite pow2_ratio by lia. apply Qle_shift_div_r.
    - change 0%Q with (inject_Z 0). rewrite <- Zlt_Qlt.
      apply Z.pow_pos_nonneg; lia.
    - unfold Qle; simpl. rewrite Z.pow_succ_r in Hd2 |- * by done. nia. }
  destruct (Qle_bool (pow2 (a - b)) (n # d)) eqn:Hc.
  - apply Qle_bool_iff in Hc. by split.
  - split; [done|]. replace (a - b - 1 + 1) with (a - b) by lia.
    apply Qnot_le_lt. intros Hle. apply Qle_bool_iff in Hle. congruence.
Qed.

Lemma ilog2_unique (q : Q) (e : Z) :
  (pow2 e <= q)%Q -> (q < pow2 (e + 1))%Q -> ilog2 q = e.
Proof.
  intros Hlo Hhi.
  assert (0 < q)%Q as Hq by (eapply Qlt_le_trans; [apply pow2_pos|exact Hlo]).
  destruct (ilog2_bounds q Hq) as [Hlo' Hhi'].
  assert (e < ilog2 q + 1).
  { apply pow2_lt_inv. eapply Qle_lt_trans; eassumption. }
  assert (ilog2 q < e + 1).
  { apply pow2_lt_inv. eapply Qle_lt_trans; eassumption. }
  lia.
Qed.

Lemma ilog2_mono (x y : Q) : (0 < x)%Q -> (x <= y)%Q -> ilog2 x <= ilog2 y.
Proof.
  intros Hx Hxy.
  assert (0 < y)%Q as Hy by (eapply Qlt_le_trans; eassumption).
  destruct (ilog2_bounds x Hx) as [Hlo _].
  destruct (ilog2_bounds y Hy) as [_ Hhi].
  assert (ilog2 x < ilog2 y + 1); [|lia].
  apply pow2_lt_inv. eapply Qle_lt_trans; [|exact Hhi].
  eapply Qle_trans; eassumption.
Qed.

Lemma rne_floor (q : Q) : Qfloor q <= rne q <= Qfloor q + 1.
Proof.
  unfold rne. destruct (_ ?= _)%Q; [destruct (Z.even _)|..]; lia.
Qed.

Lemma rne_mono (x y : Q) : (x <= y)%Q -> rne x <= rne y.
Proof.
  intros Hxy. pose proof (Qfloor_resp_le x y Hxy) as Hf.
  destruct (Z.eq_dec (Qfloor x) (Qfloor y)) as [Heq|Hne].
  - unfold rne. rewrite Heq.
    destruct (x - inject_Z (Qfloor y) ?= 1 # 2)%Q eqn:Hx;
      destruct (y - inject_Z (Qfloor y) ?= 1 # 2)%Q eqn:Hy;
      try (destruct (Z.even (Qfloor y)); lia); exfalso;
      repeat match goal with
             | H : (_ ?= _)%Q = Eq |- _ => apply Qeq_alt in H
             | H : (_ ?= _)%Q = Lt |- _ => apply Qlt_alt in H
             | H : (_ ?= _)%Q = Gt |- _ => apply Qgt_alt in H
             end; lra.
  - pose proof (rne_floor x). pose proof (rne_floor y). lia.
Qed.

Lemma rne_Qeq (x y : Q) : (x == y)%Q -> rne x = rne y.
Proof.
  intros H. apply Z.le_antisymm; apply rne_mono; rewrite H; apply Qle_refl.
Qed.

#[global] Instance rne_proper : Proper (Qeq ==> eq) rne.
Proof. intros x y H. by apply rne_Qeq. Qed.

Lemma rne_inject_Z (n : Z) : rne (inject_Z n) = n.
Proof.
  unfold rne. rewrite Qfloor_Z.
  assert ((inject_Z n - inject_Z n ?= 1 # 2)%Q = Lt) as ->; [|done].
  rewrite <- Qlt_alt. generalize (inject_Z n). intros q. lra.
Qed.

Lemma scaled_bounds (q : Q) :
  (0 < q)%Q ->
  (pow2 52 <= q * pow2 (- (ilog2 q - 52))
   /\ q * pow2 (- (ilog2 q - 52)) <= pow2 53)%Q.
Proof.
  intros Hq. destruct (ilog2_bounds q Hq) as [Hlo Hhi].
  pose proof (Qlt_le_weak _ _ (pow2_pos (- (ilog2 q - 52)))) as Hp. split.
  - eapply Qle_trans; [|apply Qmult_le_compat_r; [exact Hlo|exact Hp]].
    rewrite <- pow2_add. replace (ilog2 q + - (ilog2 q - 52)) with 52 by lia.
    apply Qle_refl.
  - eapply Qle_trans;
      [apply Qmult_le_compat_r; [apply Qlt_le_weak, Hhi|exact Hp]|].
    rewrite <- pow2_add.
    replace (ilog2 q + 1 + - (ilog2 q - 52)) with 53 by lia.
    apply Qle_refl.
Qed.

Lemma rne_scaled_bounds (q : Q) :
  (0 < q)%Q -> 2 ^ 52 <= rne (q * pow2 (- (ilog2 q - 52))) <= 2 ^ 53.
Proof.
  intros Hq. destruct (scaled_bounds q Hq) as [Hlo Hhi].
  rewrite (pow2_Z 52) in Hlo by lia. rewrite (pow2_Z 53) in Hhi by lia. split.
  - rewrite <- (rne_inject_Z (2 ^ 52)). by apply rne_mono.
  - rewrite <- (rne_inject_Z (2 ^ 53)). by apply rne_mono.
Qed.

Lemma rndPos_bounds (q : Q) :
  (0 < q)%Q ->
  (pow2 (ilog2 q) <= rndPos q /\ rndPos q <= pow2 (ilog2 q + 1))%Q.
Proof.
  intros Hq. destruct (rne_scaled_bounds q Hq) as [Hlo Hhi].
  pose proof (Qlt_le_weak _ _ (pow2_pos (ilog2 q - 52))) as Hp.
  unfold rndPos. split.
  - eapply Qle_trans; [|apply Qmult_le_compat_r; [|exact Hp]].
    2: { rewrite <- Zle_Qle. exact Hlo. }
    rewrite <- (pow2_Z 52), <- pow2_add by lia.
    replace (52 + (ilog2 q - 52)) with (ilog2 q) by lia. apply Qle_refl.
  - eapply Qle_trans; [apply Qmult_le_compat_r; [|exact Hp]|].
    { rewrite <- Zle_Qle. exact Hhi. }
    rewrite <- (pow2_Z 53), <- pow2_add by lia.
    replace (53 + (ilog2 q - 52)) with (ilog2 q + 1) by lia. apply Qle_refl.
Qed.

Lemma rndPos_pos (q : Q) : (0 < q)%Q -> (0 < rndPos q)%Q.
Proof.
  intros Hq. eapply Qlt_le_trans; [apply (pow2_pos (ilog2 q))|].
  by apply rndPos_bounds.
Qed.

Lemma rndPos_mono (x y : Q) :
  (0 < x)%Q -> (x <= y)%Q -> (rndPos x <= rndPos y)%Q.
Proof.
  intros Hx Hxy.
  assert (0 < y)%Q as Hy by (eapply Qlt_le_trans; eassumption).
  pose proof (ilog2_mono x y Hx Hxy) as He.
  destruct (Z.eq_dec (ilog2 x) (ilog2 y)) as [Heq|Hne].
  - unfold rndPos. rewrite Heq.
    apply Qmult_le_compat_r; [|apply Qlt_le_weak, pow2_pos].
    rewrite <- Zle_Qle. apply rne_mono.
    apply Qmult_le_compat_r; [done|apply Qlt_le_weak, pow2_pos].
  - destruct (rndPos_bounds x Hx) as [_ Hux].
    destruct (rndPos_bounds y Hy) as [Hly _].
    eapply Qle_trans; [exact Hux|]. eapply Qle_trans; [|exact Hly].
    apply pow2_le. lia.
Qed.

Lemma rndPos_Qeq (x y : Q) :
  (0 < x)%Q -> (x == y)%Q -> (rndPos x == rndPos y)%Q.
Proof.
  intros Hx Hxy. assert (0 < y)%Q as Hy by (by rewrite <- Hxy).
  apply Qle_antisym; apply rndPos_mono; try done; rewrite Hxy; apply Qle_refl.
Qed.

Lemma rnd_Qeq (x y : Q) : (x == y)%Q -> rnd x = rnd y.
Proof. intros H. unfold rnd. by rewrite (Qred_complete x y H). Qed.

(** The three cases of [rnd], up to equality of rationals. *)
Lemma rnd_cases (x : Q) :
  (x == 0 /\ rnd x = 0)%Q
  \/ (0 < x /\ rnd x == rndPos x)%Q
  \/ (x < 0 /\ rnd x == - rndPos (- x))%Q.
Proof.
  unfold rnd. pose proof (Qred_correct x) as Hr.
  destruct (Qred x ?= 0)%Q eqn:Hc.
  - left. apply Qeq_alt in Hc. split; [by rewrite <- Hr|done].
  - right. right. apply Qlt_alt in Hc.
    assert (x < 0)%Q as Hx by (by rewrite <- Hr). split; [done|].
    apply Qopp_comp, rndPos_Qeq; [lra|by rewrite Hr].
  - right. left. apply Qgt_alt in Hc.
    assert (0 < x)%Q as Hx by (by rewrite <- Hr). split; [done|].
    apply rndPos_Qeq; [done|by rewrite Hr].
Qed.

Lemma rnd_mono (x y : Q) : (x <= y)%Q -> (rnd x <= rnd y)%Q.
Proof.
  intros Hxy.
  destruct (rnd_cases x) as [[Hx ->]|[[Hx ->]|[Hx ->]]];
    destruct (rnd_cases y) as [[Hy ->]|[[Hy ->]|[Hy ->]]];
    try lra.
  - pose proof (rndPos_pos y Hy). lra.
  - by apply rndPos_mono.
  - pose proof (rndPos_pos (- x) ltac:(lra)). lra.
  - pose proof (rndPos_pos (- x) ltac:(lra)).
    pose proof (rndPos_pos y Hy). lra.
  - apply Qopp_le_compat, rndPos_mono; lra.
Qed.

#[global] Instance rnd_proper : Proper (Qeq ==> eq) rnd.
Proof. intros x y H. by apply rnd_Qeq. Qed.

(** Rationals with a numerator below [2 ^ 53] and a power of two as
    denominator are binary64 numbers. *)
Lemma rndPos_dyadic (m e : Z) :
  0 < m < 2 ^ 53 ->
  (rndPos (inject_Z m * pow2 e) == inject_Z m * pow2 e)%Q.
Proof.
  intros [Hm Hlt].
  pose proof (Z.log2_spec m Hm) as [Hlo Hhi].
  pose proof (Z.log2_nonneg m) as Hl0.
  assert (Z.log2 m < 53) as Hl by (apply Z.log2_lt_pow2; lia).
  assert (ilog2 (inject_Z m * pow2 e) = Z.log2 m + e) as He.
  { apply ilog2_unique.
    - rewrite pow2_add, (pow2_Z (Z.log2 m)) by lia.
      apply Qmult_le_compat_r; [by rewrite <- Zle_Qle|].
      apply Qlt_le_weak, pow2_pos.
    - replace (Z.log2 m + e + 1) with (Z.succ (Z.log2 m) + e) by lia.
      rewrite pow2_add, (pow2_Z (Z.succ (Z.log2 m))) by lia.
      apply Qmult_lt_compat_r; [apply pow2_pos|by rewrite <- Zlt_Qlt]. }
  unfold rndPos. rewrite He. set (l := Z.log2 m) in *.
  assert (inject_Z m * pow2 e * pow2 (- (l + e - 52))
          == inject_Z (m * 2 ^ (52 - l)))%Q as ->.
  { rewrite inject_Z_mult, <- (pow2_Z (52 - l)) by lia.
    rewrite <- Qmult_assoc, <- pow2_add.
    by replace (e + - (l + e - 52)) with (52 - l) by lia. }
  rewrite rne_inject_Z, inject_Z_mult, <- (pow2_Z (52 - l)) by lia.
  rewrite <- Qmult_assoc, <- pow2_add.
  by replace (52 - l + (l + e - 52)) with e by lia.
Qed.

Lemma rnd_dyadic (m e : Z) :
  - 2 ^ 53 < m < 2 ^ 53 ->
  (rnd (inject_Z m * pow2 e) == inject_Z m * pow2 e)%Q.
Proof.
  intros Hm. pose proof (pow2_pos e) as Hp.
  destruct (rnd_cases (inject_Z m * pow2 e)) as [[Hx ->]|[[Hx ->]|[Hx ->]]].
  - by rewrite Hx.
  - apply rndPos_dyadic. split; [|lia].
    destruct (Z_lt_le_dec 0 m) as [Hpos|Hle]; [done|]. exfalso.
    assert (inject_Z m <= 0)%Q as Hq
      by (change 0%Q with (inject_Z 0); rewrite <- Zle_Qle; lia).
    revert Hx Hq Hp. generalize (inject_Z m) (pow2 e). intros a p. nra.
  - assert (m < 0) as Hneg.
    { destruct (Z_lt_le_dec m 0) as [Hneg|Hle]; [done|]. exfalso.
      assert (0 <= inject_Z m)%Q as Hq
        by (change 0%Q with (inject_Z 0); rewrite <- Zle_Qle; lia).
      revert Hx Hq Hp. generalize (inject_Z m) (pow2 e). intros a p. nra. }
    assert (- (inject_Z m * pow2 e) == inject_Z (- m) * pow2 e)%Q as E.
    { rewrite inject_Z_opp. ring. }
    assert (0 < - (inject_Z m * pow2 e))%Q as Hx'.
    { revert Hx. generalize (inject_Z m * pow2 e)%Q. intros a Ha. lra. }
    rewrite (rndPos_Qeq _ _ Hx' E), rndPos_dyadic by lia.
    rewrite inject_Z_opp. ring.
Qed.

Lemma rnd_int (n : Z) :
  - 2 ^ 53 < n < 2 ^ 53 -> (rnd (inject_Z n) == inject_Z n)%Q.
Proof.
  intros Hn.
  assert (inject_Z n == inject_Z n * pow2 0)%Q as E
    by (change (pow2 0) with 1%Q; ring).
  rewrite (rnd_Qeq _ _ E), rnd_dyadic by done. by symmetry.
Qed.

(** Dividing a day count by 7 in binary64 and taking the floor or the
    ceiling gives the integer quotients. *)
Lemma binary64_week_quotient (n : Z) :
  - 2 ^ 49 < n < 2 ^ 49 ->
  Qfloor (div (ofZ n) (ofZ 7)) = n / 7
  /\ Qceiling (div (ofZ n) (ofZ 7)) = (n + 6) / 7.
Proof.
  intros Hn. unfold div, ofZ.
  assert (rnd (inject_Z n) == inject_Z n)%Q as -> by (apply rnd_int; lia).
  assert (rnd (inject_Z 7) == inject_Z 7)%Q as -> by (by vm_compute).
  set (k := n / 7). set (r := n mod 7).
  assert (n = 7 * k + r /\ 0 <= r < 7) as [Hk Hr].
  { subst k r. pose proof (Z.div_mod n 7 ltac:(lia)).
    pose proof (Z.mod_pos_bound n 7 ltac:(lia)). lia. }
  assert ((n + 6) / 7 = if decide (r = 0) then k else k + 1) as ->.
  { subst k r. case_decide; Z.div_mod_to_equations; lia. }
  change (n / 7) with k. clearbody k r.
  destruct (Z.eq_dec r 0) as [Hr0|Hr0].
  - assert (inject_Z n / inject_Z 7 == inject_Z k)%Q as ->.
    { rewrite Hk, Hr0, Z.add_0_r, inject_Z_mult. field. }
    assert (rnd (inject_Z k) == inject_Z k)%Q as -> by (apply rnd_int; lia).
    rewrite Qfloor_Z, Qceiling_Z. by rewrite decide_True.
  - assert (inject_Z (8 * k + 1) * pow2 (-3)
            <= rnd (inject_Z n / inject_Z 7))%Q as Hlo.
    { rewrite <- (rnd_dyadic (8 * k + 1) (-3)) by lia. apply rnd_mono.
      apply Qle_shift_div_l; [reflexivity|].
      change (pow2 (-3)) with (1 # 8)%Q. rewrite Hk.
      unfold Qle; simpl. lia. }
    assert (rnd (inject_Z n / inject_Z 7)
            <= inject_Z (8 * k + 7) * pow2 (-3))%Q as Hhi.
    { rewrite <- (rnd_dyadic (8 * k + 7) (-3)) by lia. apply rnd_mono.
      apply Qle_shift_div_r; [reflexivity|].
      change (pow2 (-3)) with (1 # 8)%Q. rewrite Hk.
      unfold Qle; simpl. lia. }
    change (pow2 (-3)) with (1 # 8)%Q in Hlo, Hhi.
    set (q := rnd (inject_Z n / inject_Z 7)) in *.
    assert (inject_Z k < q)%Q as Hkq.
    { eapply Qlt_le_trans; [|exact Hlo]. unfold Qlt; simpl. lia. }
    assert (q < inject_Z (k + 1))%Q as Hqk.
    { eapply Qle_lt_trans; [exact Hhi|]. unfold Qlt; simpl. lia. }
    split.
    + apply Qfloor_unique; [by apply Qlt_le_weak|done].
    + unfold Qceiling. rewrite decide_False by done.
      assert (Qfloor (- q) = - (k + 1)) as ->; [|lia].
      apply Qfloor_unique.
      * rewrite inject_Z_opp. lra.
      * replace (- (k + 1) + 1) with (- k) by lia. rewrite inject_Z_opp. lra.
Qed.

Lemma rnd_byte (n : Z) : 0 <= n <= 255 -> (rnd (inject_Z n) == inject_Z n)%Q.
Proof. intros H. apply rnd_int. lia. Qed.

Lemma ofZ_mono (a b : Z) : a <= b -> (ofZ a <= ofZ b)%Q.
Proof. intros H. apply rnd_mono. by rewrite <- Zle_Qle. Qed.

Lemma ofZ_pos (m : Z) : 0 < m -> (1 <= ofZ m)%Q.
Proof.
  intros H. rewrite <- (rnd_int 1) by lia. apply ofZ_mono. lia.
Qed.

(** ** Arithmetic of the colour utility *)

Lemma round_inject_Z (z : Z) : round (inject_Z z) = z.
Proof.
  unfold round. apply Qfloor_unique.
  - generalize (inject_Z z) as q. intros q. lra.
  - rewrite inject_Z_plus. change (inject_Z 1) with 1%Q.
    generalize (inject_Z z) as q. intros q. lra.
Qed.

Lemma round_le (q1 q2 : Q) : (q1 <= q2)%Q -> round q1 <= round q2.
Proof. intros H. unfold round. apply Qfloor_resp_le. lra. Qed.

#[global] Instance round_proper : Proper (Qeq ==> eq) round.
Proof. intros x y H. unfold round. apply Qfloor_comp. by rewrite H. Qed.

Lemma mix_Qeq (i1 i2 : Q) (ch : option Z) :
  (i1 == i2)%Q -> mix i1 ch = mix i2 ch.
Proof.
  intros H. destruct ch as [ch|]; [|reflexivity].
  cbn [mix]. unfold mixValue, mul. by rewrite H.
Qed.

(** The distance of a channel from white is a binary64 number. *)
Lemma sub_255_byte (ch : Z) :
  0 <= ch <= 255 -> (sub 255 (ofZ ch) == inject_Z (255 - ch))%Q.
Proof.
  intros H. unfold sub, ofZ. rewrite (rnd_byte ch H).
  assert (255 - inject_Z ch == inject_Z (255 - ch))%Q as ->.
  { unfold Z.sub. by rewrite inject_Z_plus, inject_Z_opp. }
  apply rnd_byte. lia.
Qed.

Lemma mixValue_anti (i1 i2 : Q) (ch : Z) :
  0 <= ch <= 255 -> (i1 <= i2)%Q -> mixValue i2 ch <= mixValue i1 ch.
Proof.
  intros Hch Hi. unfold mixValue. apply round_le. unfold sub at 1 3.
  apply rnd_mono. apply Qplus_le_r, Qopp_le_compat.
  unfold mul. apply rnd_mono. rewrite (sub_255_byte ch Hch).
  rewrite !(Qmult_comm (inject_Z (255 - ch))).
  apply Qmult_le_compat_r; [done|].
  change 0%Q with (inject_Z 0). rewrite <- Zle_Qle. lia.
Qed.

Lemma mixValue_one (i : Q) (ch : Z) :
  0 <= ch <= 255 -> (i == 1)%Q -> mixValue i ch = ch.
Proof.
  intros Hch Hi. unfold mixValue, mul. rewrite Hi, (sub_255_byte ch Hch).
  unfold sub. rewrite Qmult_1_r, (rnd_byte (255 - ch)) by lia.
  assert (255 - inject_Z (255 - ch) == inject_Z ch)%Q as ->.
  { unfold Z.sub. rewrite inject_Z_plus, inject_Z_opp.
    change (inject_Z 255) with 255%Q. ring. }
  rewrite (rnd_byte ch Hch). apply round_inject_Z.
Qed.

Lemma mixValue_zero (ch : Z) : 0 <= ch <= 255 -> mixValue 0 ch = 255.
Proof.
  intros Hch. unfold mixValue, mul. rewrite Qmult_0_r.
  by vm_compute.
Qed.

Lemma mixValue_between (i1 i2 : Q) (ch : Z) :
  0 <= ch <= 255 -> (0 <= i1)%Q -> (i1 <= i2)%Q -> (i2 <= 1)%Q ->
  ch <= mixValue i2 ch /\ mixValue i2 ch <= mixValue i1 ch /\ mixValue i1 ch <= 255.
Proof.
  intros Hch H0 H12 H1.
  pose proof (mixValue_anti i2 1 ch Hch H1) as Hbase.
  pose proof (mixValue_anti i1 i2 ch Hch H12) as Hstep.
  pose proof (mixValue_anti 0 i1 ch Hch H0) as Hwhite.
  rewrite mixValue_one in Hbase by (exact Hch || reflexivity).
  rewrite mixValue_zero in Hwhite by exact Hch.
  split; [exact Hbase|]. split; [exact Hstep|exact Hwhite].
Qed.

Lemma term_mono (q1 q2 : Q) : (q1 <= q2)%Q -> (term q1 <= term q2)%Q.
Proof.
  intros H. unfold term, add, mul. apply rnd_mono, Qplus_le_r, rnd_mono.
  rewrite !(Qmult_comm c0_9). apply Qmult_le_compat_r.
  - by apply rnd_mono.
  - apply Qle_bool_iff. by vm_compute.
Qed.

Lemma term_saturated (q : Q) : (13 # 18 <= q)%Q -> (1 <= term q)%Q.
Proof.
  intros H. eapply Qle_trans; [|apply term_mono, H].
  apply Qle_bool_iff. by vm_compute.
Qed.

Lemma term_nonneg (q : Q) : (0 <= q)%Q -> (0 <= term q)%Q.
Proof.
  intros H. eapply Qle_trans; [|apply term_mono, H].
  apply Qle_bool_iff. by vm_compute.
Qed.

Lemma rawIntensity_term (count maxCount : Z) :
  rawIntensity count maxCount = term (ofZ count / ofZ maxCount).
Proof. unfold rawIntensity, term, div. reflexivity. Qed.

Lemma ofZ_gt_0 (m : Z) : 0 < m -> (0 < ofZ m)%Q.
Proof. intros H. pose proof (ofZ_pos m H). lra. Qed.

Lemma quotient_mono (c1 c2 m : Z) :
  0 < m -> c1 <= c2 -> (ofZ c1 / ofZ m <= ofZ c2 / ofZ m)%Q.
Proof.
  intros Hm Hc. unfold Qdiv. apply Qmult_le_compat_r.
  - by apply ofZ_mono.
  - apply Qinv_le_0_compat, Qlt_le_weak, ofZ_gt_0, Hm.
Qed.

Lemma quotient_nonneg (c m : Z) :
  0 < m -> 0 <= c -> (0 <= ofZ c / ofZ m)%Q.
Proof.
  intros Hm Hc. apply Qle_shift_div_l; [by apply ofZ_gt_0|].
  rewrite Qmult_0_l. change 0%Q with (ofZ 0). by apply ofZ_mono.
Qed.

Lemma quotient_ge_one (c m : Z) :
  0 < m -> m <= c -> (1 <= ofZ c / ofZ m)%Q.
Proof.
  intros Hm Hc. apply Qle_shift_div_l; [by apply ofZ_gt_0|].
  rewrite Qmult_1_l. by apply ofZ_mono.
Qed.

Lemma representable_small (z : Z) :
  - 2 ^ 53 < z < 2 ^ 53 -> representable z.
Proof. apply rnd_int. Qed.

Lemma quotient_ge_13_18 (c m : Z) :
  representable c -> representable m ->
  0 < m -> 13 * m <= 18 * c -> (13 # 18 <= ofZ c / ofZ m)%Q.
Proof.
  unfold representable. intros Hc Hm Hpos H.
  apply Qle_shift_div_l; [by apply ofZ_gt_0|].
  rewrite Hc, Hm. unfold Qle; simpl. lia.
Qed.

Lemma intensity_pos_max (count maxCount : Z) :
  0 < maxCount ->
  intensity count maxCount = Qmin (rawIntensity count maxCount) 1.
Proof.
  intros H. unfold intensity. destruct (Z.eqb_spec maxCount 0); [lia|done].
Qed.

Lemma intensity_mono (c1 c2 m : Z) :
  0 < m -> c1 <= c2 -> (intensity c1 m <= intensity c2 m)%Q.
Proof.
  intros Hm Hc. rewrite !intensity_pos_max by done.
  apply Q.min_le_compat_r. rewrite !rawIntensity_term.
  by apply term_mono, quotient_mono.
Qed.

Lemma intensity_range (count m : Z) :
  0 < m -> 0 <= count -> (0 <= intensity count m <= 1)%Q.
Proof.
  intros Hm Hc. rewrite intensity_pos_max by done. split.
  - apply Q.min_glb; [|lra]. rewrite rawIntensity_term.
    by apply term_nonneg, quotient_nonneg.
  - apply Q.le_min_r.
Qed.

Lemma intensity_saturated (count m : Z) :
  0 < m -> (1 <= rawIntensity count m)%Q -> (intensity count m == 1)%Q.
Proof.
  intros Hm Hc. rewrite intensity_pos_max by done. by apply Q.min_r.
Qed.

Lemma rawIntensity_at_max (count m : Z) :
  0 < m -> m <= count -> (1 <= rawIntensity count m)%Q.
Proof.
  intros Hm Hc. rewrite rawIntensity_term. apply term_saturated.
  pose proof (quotient_ge_one count m Hm Hc). lra.
Qed.

Lemma shadeColor_Qeq (color : string) (i1 i2 : Q) :
  (i1 == i2)%Q -> shadeColor color i1 = shadeColor color i2.
Proof.
  intros H. unfold shadeColor. destruct (channels color) as [[r g] b].
  by rewrite !(mix_Qeq i1 i2).
Qed.

Lemma shadeColor_channels (color : string) (i : Q) :
  shadeColor color i
  = let '(r, g, b) := shadeChannels color i in rgb r g b.
Proof.
  unfold shadeColor, shadeChannels. by destruct (channels color) as [[r g] b].
Qed.

Lemma hexDigit_range (c : ascii) (d : Z) : hexDigit c = Some d -> 0 <= d <= 15.
Proof.
  unfold hexDigit. intros H.
  repeat match type of H with
         | (if ?b then _ else _) = _ => destruct b eqn:?
         end; simplify_eq; lia.
Qed.

Lemma parseInt16_two_hex (c1 c2 : ascii) (d1 d2 : Z) :
  hexDigit c1 = Some d1 -> hexDigit c2 = Some d2 ->
  parseInt16 (String c1 (String c2 "")) = Some (16 * d1 + d2).
Proof.
  destruct c1 as [[] [] [] [] [] [] [] []]; intros H1;
    vm_compute in H1; try discriminate H1; injection H1 as <-;
    (destruct c2 as [[] [] [] [] [] [] [] []]; intros H2;
     vm_compute in H2; try discriminate H2; injection H2 as <-;
     vm_compute; reflexivity).
Qed.

Lemma wellFormed_channels (color : string) :
  wellFormed color = true ->
  exists r g b,
    channels color = (Some r, Some g, Some b)
    /\ 0 <= r <= 255 /\ 0 <= g <= 255 /\ 0 <= b <= 255.
Proof.
  unfold wellFormed.
  destruct color as [|[[] [] [] [] [] [] [] []] s]; try discriminate.
  intros [Hlen Hhex]%andb_prop. apply bool_decide_eq_true in Hlen.
  destruct s as [|c1 [|c2 [|c3 [|c4 [|c5 [|c6 [|c7 s]]]]]]];
    try discriminate Hlen.
  simpl in Hhex. rewrite !andb_true_iff, !bool_decide_eq_true in Hhex.
  destruct Hhex as ([d1 H1] & [d2 H2] & [d3 H3] & [d4 H4] & [d5 H5]
                    & [d6 H6] & _).
  exists (16 * d1 + d2), (16 * d3 + d4), (16 * d5 + d6). split.
  - unfold channels; simpl String.substring.
    by rewrite (parseInt16_two_hex _ _ _ _ H1 H2),
      (parseInt16_two_hex _ _ _ _ H3 H4), (parseInt16_two_hex _ _ _ _ H5 H6).
  - apply hexDigit_range in H1, H2, H3, H4, H5, H6. lia.
Qed.

(** ** The rounding model against bit-level binary64

    On the sampled inputs the operations of [Number] denote the results of
    the standard library's IEEE 754 operations, and the two computations
    of the colour agree, also where the exact mix is a half-integer: for
    count 7 of 25 and a channel of 5 the exact value is 104.5, which
    binary64 computes just below the tie. *)

Example binary64_literals :
  Binary64.denotes Binary64.c0_35 c0_35 = true
  /\ Binary64.denotes Binary64.c0_9 c0_9 = true.
Proof. split; by vm_compute. Qed.

Example binary64_quotients :
  forallb
    (fun a =>
       forallb
         (fun b =>
            Binary64.denotes (Binary64.div (Binary64.ofZ a) (Binary64.ofZ b))
              (div (ofZ a) (ofZ b))
            && Binary64.denotes (Binary64.rawIntensity a b) (rawIntensity a b))
         (seqZ 1 12))
    (seqZ 1 12) = true.
Proof. by vm_compute. Qed.

Example binary64_colours :
  forallb
    (fun color =>
       forallb
         (fun m =>
            forallb
              (fun c => bool_decide (Binary64.getColorForCount c color m
                                     = getColorForCount c color m))
              (seqZ (-1) 28))
         [0; 1; 5; 18; 25])
    ["#239a3b"; "#050000"; "#ff8000"] = true.
Proof. by vm_compute. Qed.

Example binary64_tie :
  (255 - (255 - 5) * ((35 # 100) + (9 # 10) * (7 # 25)) == 209 # 2)%Q
  /\ getColorForCount 7 "#050000" 25 = "rgb(104, 101, 101)"
  /\ Binary64.getColorForCount 7 "#050000" 25 = "rgb(104, 101, 101)".
Proof. repeat split; by vm_compute. Qed.

Example binary64_boundary :
  Binary64.denotes (Binary64.rawIntensity 13 18) 1 = true
  /\ (rawIntensity 13 18 == 1)%Q.
Proof. split; by vm_compute. Qed.

(** ** Claims about the colour utility *)

Lemma neutral_zero (baseColor : string) (maxCount : Z) :
  getColorForCount 0 baseColor maxCount = "#ebedf0".
Proof. reflexivity. Qed.

(** C4. For every count that is zero or negative, [getColorForCount]
    returns the neutral colour [#ebedf0], whatever the base colour and the
    maximum. *)
Theorem neutral_for_nonpositive_count
    (count : Z) (baseColor : string) (maxCount : Z) :
  count <= 0 -> getColorForCount count baseColor maxCount = "#ebedf0".
Proof.
  intros H. unfold getColorForCount.
  destruct (Z.leb_spec count 0); [done|lia].
Qed.

Lemma neutral_for_nonpositive_count_witness :
  -3 <= 0 /\ getColorForCount (-3) "#239a3b" 0 = "#ebedf0".
Proof.
  split; [lia|]. apply (neutral_for_nonpositive_count (-3) "#239a3b" 0). lia.
Defined.

(** ** The channels of a well-formed colour, read independently *)

Lemma hexValue_two_hex (c1 c2 : ascii) (d1 d2 : Z) :
  hexDigit c1 = Some d1 -> hexDigit c2 = Some d2 ->
  hexValue (String c1 (String c2 "")) = 16 * d1 + d2.
Proof.
  destruct c1 as [[] [] [] [] [] [] [] []]; intros H1;
    vm_compute in H1; try discriminate H1; injection H1 as <-;
    (destruct c2 as [[] [] [] [] [] [] [] []]; intros H2;
     vm_compute in H2; try discriminate H2; injection H2 as <-;
     vm_compute; reflexivity).
Qed.

Lemma wellFormed_hexValue (color : string) :
  wellFormed color = true ->
  channels color
  = (Some (hexValue (String.substring 1 2 color)),
     Some (hexValue (String.substring 3 2 color)),
     Some (hexValue (String.substring 5 2 color)))
  /\ 0 <= hexValue (String.substring 1 2 color) <= 255
  /\ 0 <= hexValue (String.substring 3 2 color) <= 255
  /\ 0 <= hexValue (String.substring 5 2 color) <= 255.
Proof.
  unfold wellFormed.
  destruct color as [|[[] [] [] [] [] [] [] []] s]; try discriminate.
  intros [Hlen Hhex]%andb_prop. apply bool_decide_eq_true in Hlen.
  destruct s as [|c1 [|c2 [|c3 [|c4 [|c5 [|c6 [|c7 s]]]]]]];
    try discriminate Hlen.
  simpl in Hhex. rewrite !andb_true_iff, !bool_decide_eq_true in Hhex.
  destruct Hhex as ([d1 H1] & [d2 H2] & [d3 H3] & [d4 H4] & [d5 H5]
                    & [d6 H6] & _).
  unfold channels; simpl String.substring.
  rewrite (parseInt16_two_hex _ _ _ _ H1 H2),
    (parseInt16_two_hex _ _ _ _ H3 H4), (parseInt16_two_hex _ _ _ _ H5 H6).
  rewrite (hexValue_two_hex _ _ _ _ H1 H2),
    (hexValue_two_hex _ _ _ _ H3 H4), (hexValue_two_hex _ _ _ _ H5 H6).
  apply hexDigit_range in H1, H2, H3, H4, H5, H6.
  split; [done|lia].
Qed.

(** The string a template literal builds from three integer channels. *)
Lemma rgb_literal (r g b : Z) :
  rgb (Some r) (Some g) (Some b)
  = "rgb(" +:+ pretty r +:+ ", " +:+ pretty g +:+ ", " +:+ pretty b +:+ ")".
Proof. reflexivity. Qed.

(** C5. For [count >= maxCount > 0] and a well-formed base colour the
    intensity is capped at 1, each channel is mixed to itself, and
    [getColorForCount] returns the string [rgb(r, g, b)] of the base
    colour's own channel values: the values of its three pairs of
    hexadecimal digits, in decimal. *)
Theorem saturated_at_max (count : Z) (baseColor : string) (maxCount : Z) :
  wellFormed baseColor = true ->
  0 < maxCount -> maxCount <= count ->
  exists r g b,
    r = hexValue (String.substring 1 2 baseColor)
    /\ g = hexValue (String.substring 3 2 baseColor)
    /\ b = hexValue (String.substring 5 2 baseColor)
    /\ 0 <= r <= 255 /\ 0 <= g <= 255 /\ 0 <= b <= 255
    /\ channels baseColor = (Some r, Some g, Some b)
    /\ (intensity count maxCount == 1)%Q
    /\ shadeChannels baseColor (intensity count maxCount)
       = (Some r, Some g, Some b)
    /\ getColorForCount count baseColor maxCount
       = "rgb(" +:+ pretty r +:+ ", " +:+ pretty g +:+ ", " +:+ pretty b
           +:+ ")".
Proof.
  intros (Hch & Hr & Hg & Hb)%wellFormed_hexValue Hm Hc.
  assert (intensity count maxCount == 1)%Q as Hi
    by (by apply intensity_saturated, rawIntensity_at_max).
  set (r := hexValue (String.substring 1 2 baseColor)) in *.
  set (g := hexValue (String.substring 3 2 baseColor)) in *.
  set (b := hexValue (String.substring 5 2 baseColor)) in *.
  assert (shadeChannels baseColor (intensity count maxCount)
          = (Some r, Some g, Some b)) as Hs.
  { unfold shadeChannels. rewrite Hch. cbn [mix]. by rewrite !mixValue_one. }
  exists r, g, b.
  split; [done|]. split; [done|]. split; [done|].
  split; [exact Hr|]. split; [exact Hg|]. split; [exact Hb|].
  split; [exact Hch|]. split; [exact Hi|]. split; [exact Hs|].
  unfold getColorForCount. destruct (Z.leb_spec count 0); [lia|].
  rewrite shadeColor_channels, Hs. apply rgb_literal.
Qed.

Lemma saturated_at_max_witness :
  wellFormed "#239a3b" = true /\ 0 < 5 /\ 5 <= 9
  /\ exists r g b,
       r = hexValue (String.substring 1 2 "#239a3b")
       /\ g = hexValue (String.substring 3 2 "#239a3b")
       /\ b = hexValue (String.substring 5 2 "#239a3b")
       /\ 0 <= r <= 255 /\ 0 <= g <= 255 /\ 0 <= b <= 255
       /\ channels "#239a3b" = (Some r, Some g, Some b)
       /\ (intensity 9 5 == 1)%Q
       /\ shadeChannels "#239a3b" (intensity 9 5) = (Some r, Some g, Some b)
       /\ getColorForCount 9 "#239a3b" 5
          = "rgb(" +:+ pretty r +:+ ", " +:+ pretty g +:+ ", " +:+ pretty b
              +:+ ")".
Proof.
  split; [reflexivity|]. split; [lia|]. split; [lia|].
  apply (saturated_at_max 9 "#239a3b" 5); [reflexivity|lia|lia].
Defined.

(** The default colour at saturation, in full. *)
Example saturated_default_colour :
  hexValue "23" = 35 /\ hexValue "9a" = 154 /\ hexValue "3b" = 59
  /\ getColorForCount 9 "#239a3b" 5 = "rgb(35, 154, 59)".
Proof. repeat split; by vm_compute. Qed.

(** C10. Saturation is reached below the maximum: for positive counts
    (integers that binary64 represents) with
    [18 * count >= 13 * maxCount] the intensity term
    [0.35 + 0.9 * (count / maxCount)] is at least 1, in exact arithmetic
    and as binary64 computes it, and the colour is the one returned for
    [maxCount] itself. *)
Theorem saturated_from_thirteen_eighteenths
    (count : Z) (baseColor : string) (maxCount : Z) :
  representable count -> representable maxCount ->
  0 < maxCount -> 0 < count -> 13 * maxCount <= 18 * count ->
  (1 <= (35 # 100) + (9 # 10) * (inject_Z count / inject_Z maxCount))%Q
  /\ (1 <= rawIntensity count maxCount)%Q
  /\ getColorForCount count baseColor maxCount
     = getColorForCount maxCount baseColor maxCount.
Proof.
  intros Rc Rm Hm Hc H.
  pose proof (quotient_ge_13_18 count maxCount Rc Rm Hm H) as Hq.
  assert (1 <= rawIntensity count maxCount)%Q as Hraw.
  { rewrite rawIntensity_term. by apply term_saturated. }
  split; [|split; [done|]].
  - unfold representable in Rc, Rm. rewrite Rc, Rm in Hq. lra.
  - unfold getColorForCount.
    destruct (Z.leb_spec count 0); [lia|].
    destruct (Z.leb_spec maxCount 0); [lia|].
    apply shadeColor_Qeq.
    rewrite (intensity_saturated count maxCount Hm Hraw).
    rewrite (intensity_saturated maxCount maxCount Hm); [done|].
    apply rawIntensity_at_max; lia.
Qed.

Lemma saturated_from_thirteen_eighteenths_witness :
  representable 13 /\ representable 18
  /\ 0 < 18 /\ 0 < 13 /\ 13 * 18 <= 18 * 13
  /\ (1 <= (35 # 100) + (9 # 10) * (inject_Z 13 / inject_Z 18))%Q
  /\ (1 <= rawIntensity 13 18)%Q
  /\ getColorForCount 13 "#239a3b" 18 = getColorForCount 18 "#239a3b" 18.
Proof.
  assert (R13 : representable 13) by (by vm_compute).
  assert (R18 : representable 18) by (by vm_compute).
  split; [exact R13|]. split; [exact R18|].
  split; [lia|]. split; [lia|]. split; [lia|].
  apply (saturated_from_thirteen_eighteenths 13 "#239a3b" 18 R13 R18); lia.
Defined.

(** C6. For a fixed positive maximum and a well-formed base colour, a
    larger positive count never moves an output channel away from the base
    colour's channel: for [c1 <= c2] each channel for [c2] lies between the
    base channel and the channel for [c1], and none goes below the base
    channel or above 255. *)
Theorem channels_monotone_toward_base
    (c1 c2 : Z) (baseColor : string) (maxCount : Z) :
  wellFormed baseColor = true ->
  0 < maxCount -> 0 < c1 -> c1 <= c2 ->
  exists r g b r1 g1 b1 r2 g2 b2,
    channels baseColor = (Some r, Some g, Some b)
    /\ shadeChannels baseColor (intensity c1 maxCount)
       = (Some r1, Some g1, Some b1)
    /\ shadeChannels baseColor (intensity c2 maxCount)
       = (Some r2, Some g2, Some b2)
    /\ getColorForCount c1 baseColor maxCount
       = rgb (Some r1) (Some g1) (Some b1)
    /\ getColorForCount c2 baseColor maxCount
       = rgb (Some r2) (Some g2) (Some b2)
    /\ (r <= r2 /\ r2 <= r1 /\ r1 <= 255)
    /\ (g <= g2 /\ g2 <= g1 /\ g1 <= 255)
    /\ (b <= b2 /\ b2 <= b1 /\ b1 <= 255).
Proof.
  intros (r & g & b & Hch & Hr & Hg & Hb)%wellFormed_channels Hm H1 H12.
  pose proof (intensity_range c1 maxCount Hm ltac:(lia)) as [Hlo _].
  pose proof (intensity_range c2 maxCount Hm ltac:(lia)) as [_ Hhi].
  pose proof (intensity_mono c1 c2 maxCount Hm H12) as Hmono.
  set (i1 := intensity c1 maxCount) in *.
  set (i2 := intensity c2 maxCount) in *.
  exists r, g, b, (mixValue i1 r), (mixValue i1 g), (mixValue i1 b),
    (mixValue i2 r), (mixValue i2 g), (mixValue i2 b).
  assert (shadeChannels baseColor i1
          = (Some (mixValue i1 r), Some (mixValue i1 g), Some (mixValue i1 b)))
    as Hs1.
  { unfold shadeChannels. rewrite Hch. reflexivity. }
  assert (shadeChannels baseColor i2
          = (Some (mixValue i2 r), Some (mixValue i2 g), Some (mixValue i2 b)))
    as Hs2.
  { unfold shadeChannels. rewrite Hch. reflexivity. }
  split; [exact Hch|]. split; [exact Hs1|]. split; [exact Hs2|].
  unfold getColorForCount.
  destruct (Z.leb_spec c1 0); [lia|]. destruct (Z.leb_spec c2 0); [lia|].
  fold i1 i2. rewrite !shadeColor_channels, Hs1, Hs2.
  split; [reflexivity|]. split; [reflexivity|].
  split; [|split]; by apply mixValue_between.
Qed.

Lemma channels_monotone_toward_base_witness :
  wellFormed "#239a3b" = true /\ 0 < 5 /\ 0 < 1 /\ 1 <= 3
  /\ exists r g b r1 g1 b1 r2 g2 b2,
    channels "#239a3b" = (Some r, Some g, Some b)
    /\ shadeChannels "#239a3b" (intensity 1 5) = (Some r1, Some g1, Some b1)
    /\ shadeChannels "#239a3b" (intensity 3 5) = (Some r2, Some g2, Some b2)
    /\ getColorForCount 1 "#239a3b" 5 = rgb (Some r1) (Some g1) (Some b1)
    /\ getColorForCount 3 "#239a3b" 5 = rgb (Some r2) (Some g2) (Some b2)
    /\ (r <= r2 /\ r2 <= r1 /\ r1 <= 255)
    /\ (g <= g2 /\ g2 <= g1 /\ g1 <= 255)
    /\ (b <= b2 /\ b2 <= b1 /\ b1 <= 255).
Proof.
  split; [reflexivity|]. split; [lia|]. split; [lia|]. split; [lia|].
  apply (channels_monotone_toward_base 1 3 "#239a3b" 5); [reflexivity|lia..].
Defined.

(** ** The month-label pass *)

Section MonthLabels.
Variable tza : Z.
Variable p : HeatmapProps.

Lemma firstOfMonth_snoc (pre : list Cell) (c' : Cell) (i : nat) (c : Cell) :
  firstOfMonth tza p pre i c -> firstOfMonth tza p (pre ++ [c']) i c.
Proof.
  intros (Hi & Hv & Hfirst). pose proof (lookup_lt_Some _ _ _ Hi) as Hlt.
  split; [by apply lookup_app_l_Some|]. split; [done|].
  intros j c'' Hj Hlook. apply (Hfirst j c'' Hj).
  by rewrite lookup_app_l in Hlook by lia.
Qed.

Lemma labels_inv_nil : labels_inv tza p [] (∅, []).
Proof.
  split; [|split; [|split]]; simpl.
  - intros m. split; [set_solver|]. intros (c & Hc & _). set_solver.
  - intros m. set_solver.
  - constructor.
  - exists []. repeat constructor.
Qed.

Lemma labels_inv_skip (pre : list Cell) (st : gset string * list MonthLabel)
    (c : Cell) :
  (visible p c -> monthOf tza c ∈ st.1) ->
  labels_inv tza p pre st -> labels_inv tza p (pre ++ [c]) st.
Proof.
  intros Hc (Hseen & Hlab & Hnd & idx & Hsort & Hlt & Hfirst).
  split; [|split; [done|split; [done|]]].
  - intros m. rewrite Hseen. split.
    + intros (c0 & Hin & Hv & Hm). exists c0.
      split; [apply elem_of_app; by left|done].
    + intros (c0 & [Hin| ->%list_elem_of_singleton]%elem_of_app & Hv & Hm).
      * by exists c0.
      * apply Hseen. rewrite <- Hm. by apply Hc.
  - exists idx. split; [done|]. split.
    + eapply Forall_impl; [exact Hlt|]. intros i Hi. simpl in Hi.
      rewrite length_app. simpl. lia.
    + eapply Forall2_impl; [exact Hfirst|].
      intros l i (c0 & H0 & ->). exists c0. split; [|done].
      by apply firstOfMonth_snoc.
Qed.

Lemma labels_inv_push (pre : list Cell) (seen : gset string)
    (labels : list MonthLabel) (c : Cell) :
  visible p c -> monthOf tza c ∉ seen ->
  labels_inv tza p pre (seen, labels) ->
  labels_inv tza p (pre ++ [c])
    ({[monthOf tza c]} ∪ seen, labels ++ [labelOf tza c]).
Proof.
  intros Hv Hnew (Hseen & Hlab & Hnd & idx & Hsort & Hlt & Hfirst).
  simpl in *. split; [|split; [|split]]; simpl.
  - intros m. rewrite elem_of_union, elem_of_singleton, Hseen. split.
    + intros [->|(c0 & Hin & Hv0 & Hm)].
      * exists c. split; [|done].
        apply elem_of_app; right. by apply list_elem_of_singleton.
      * exists c0. split; [apply elem_of_app; by left|done].
    + intros (c0 & [Hin| ->%list_elem_of_singleton]%elem_of_app & Hv0 & Hm).
      * right. by exists c0.
      * by left.
  - intros m. rewrite fmap_app, elem_of_app, Hlab. simpl.
    rewrite list_elem_of_singleton, elem_of_union, elem_of_singleton. tauto.
  - rewrite fmap_app. apply NoDup_app. split; [done|]. split.
    + intros m Hm%Hlab ->%list_elem_of_singleton. done.
    + simpl. apply NoDup_singleton.
  - exists (idx ++ [length pre]). split; [|split].
    + clear Hfirst. induction Hsort as [|i idx Hs IH Hall]; simpl.
      * repeat constructor.
      * apply Forall_cons in Hlt as [Hi Hlt]. constructor; [by apply IH|].
        apply Forall_app. split; [done|]. by repeat constructor.
    + apply Forall_app. split.
      * eapply Forall_impl; [exact Hlt|]. intros i Hi. simpl in Hi.
        rewrite length_app. simpl. lia.
      * repeat constructor. rewrite length_app. simpl. lia.
    + apply Forall2_app.
      * eapply Forall2_impl; [exact Hfirst|].
        intros l i (c0 & H0 & ->). exists c0. split; [|done].
        by apply firstOfMonth_snoc.
      * repeat constructor. exists c. split; [|done].
        split; [by apply list_lookup_middle|]. split; [done|].
        intros j c' Hj Hlook Hv' Heq. apply Hnew, Hseen.
        rewrite lookup_app_l in Hlook by done.
        exists c'. split; [|done]. by eapply list_elem_of_lookup_2.
Qed.

Lemma labels_inv_step (pre : list Cell) (st : gset string * list MonthLabel)
    (c : Cell) :
  labels_inv tza p pre st -> labels_inv tza p (pre ++ [c]) (labelStep tza p st c).
Proof.
  intros Hinv. destruct st as [seen labels]. unfold labelStep.
  destruct (Z.ltb_spec (date c) (startDate p)) as [Hpad|Hvis].
  - apply labels_inv_skip; [|done]. unfold visible. lia.
  - case_bool_decide as Hseen.
    + by apply labels_inv_skip.
    + by apply labels_inv_push.
Qed.

Lemma labels_inv_fold (cs : list Cell) :
  labels_inv tza p cs (foldl (labelStep tza p) (∅, []) cs).
Proof.
  induction cs as [|c cs IH] using rev_ind.
  - apply labels_inv_nil.
  - rewrite foldl_app. simpl. by apply labels_inv_step.
Qed.

End MonthLabels.

(** ** Claims about the month labels and about inverted ranges *)

(** C1, as the code has it. The month labels carry pairwise distinct month
    names; a month name is labelled exactly when some cell on or after
    [startDate] has it; and the labels follow cell order, each one built
    from the first such cell with its month name and recording that cell's
    x offset. Cells before [startDate] contribute nothing. *)
Theorem month_labels_first_of_each_name (tza : Z) (p : HeatmapProps) :
  NoDup (month <$> monthLabels tza p)
  /\ (forall m,
        m ∈ month <$> monthLabels tza p
        <-> exists c, c ∈ cells tza p /\ visible p c /\ monthOf tza c = m)
  /\ exists idx,
       StronglySorted lt idx
       /\ Forall2
            (fun l i =>
               exists c, firstOfMonth tza p (cells tza p) i c
                         /\ l = labelOf tza c)
            (monthLabels tza p) idx.
Proof.
  destruct (labels_inv_fold tza p (cells tza p))
    as (Hseen & Hlab & Hnd & idx & Hsort & _ & Hfirst).
  fold (monthLabels tza p) in Hlab, Hnd, Hfirst.
  split; [done|]. split.
  - intros m. by rewrite Hlab, Hseen.
  - by exists idx.
Qed.

(** C1, as stated, fails on a range longer than a year: from 2024-01-01 to
    2025-01-30 the cells on or after [startDate] lie in thirteen calendar
    months, and there are twelve labels; January 2025 has none. *)
Lemma thirteen_calendar_months_twelve_labels :
  let visibleCells := filter (visible thirteen_months) (cells 0 thirteen_months) in
  length (remove_dups (calendarMonth 0 <$> visibleCells)) = 13%nat
  /\ length (monthLabels 0 thirteen_months) = 12%nat
  /\ (2025, 0) ∈ calendarMonth 0 <$> visibleCells
  /\ filter (fun l => month l = "Jan") (monthLabels 0 thirteen_months)
     = [{| month := "Jan"; label_x := 0 |}].
Proof.
  intros visibleCells. split; [by vm_compute|]. split; [by vm_compute|].
  split; [|by vm_compute].
  apply (bool_decide_unpack _). by vm_compute.
Qed.

(** C8, as stated, fails: with [startDate] Wednesday 2024-01-03,
    [endDate] Tuesday 2024-01-02 and weeks starting on Sunday, the grid is
    aligned to Sunday 2023-12-31 and three cells are produced. *)
Lemma inverted_range_three_cells :
  endDate inverted_wednesday < startDate inverted_wednesday
  /\ totalDays 0 inverted_wednesday = 3
  /\ length (cells 0 inverted_wednesday) = 3%nat
  /\ cells 0 inverted_wednesday <> [].
Proof. repeat split; by vm_compute. Qed.

Lemma labels_of_padding (tza : Z) (p : HeatmapProps) :
  Forall (fun c => date c < startDate p) (cells tza p) ->
  monthLabels tza p = [].
Proof.
  intros Hall.
  destruct (labels_inv_fold tza p (cells tza p)) as (Hseen & Hlab & _).
  fold (monthLabels tza p) in Hlab.
  destruct (monthLabels tza p) as [|l ls] eqn:E; [done|].
  assert (month l ∈ month <$> l :: ls) as Hin by (simpl; apply list_elem_of_here).
  apply Hlab, Hseen in Hin as (c & Hc & Hv & _).
  rewrite Forall_forall in Hall. specialize (Hall c Hc).
  unfold visible in Hv. lia.
Qed.

(** C8, as the code has it. With [endDate] before [startDate] the loop
    runs [differenceInDays(endDate, alignedStart) + 1] times when that is
    positive, and at most six times; [alignedStart] is never after
    [startDate].  There is no cell and no month label
    when [endDate] lies a full day or more before [alignedStart].
    Otherwise, when [startDate] is not on the week-start day, every cell
    is alignment padding before [startDate], there are at most as many as
    padding days, and there is no month label; and when [startDate] is on
    the week-start day there is exactly one cell, that of [startDate]
    itself, with its month label. *)
Theorem inverted_range_cells (tza : Z) (p : HeatmapProps) :
  weekStart p = 0 \/ weekStart p = 1 ->
  endDate p < startDate p ->
  length (cells tza p)
  = Z.to_nat (differenceInDays (endDate p) (alignedStart tza p) + 1)
  /\ (length (cells tza p) <= 6)%nat
  /\ alignedStart tza p <= startDate p
  /\ (endDate p + msPerDay <= alignedStart tza p ->
      totalDays tza p <= 0 /\ cells tza p = [] /\ monthLabels tza p = [])
  /\ (alignedStart tza p < endDate p + msPerDay ->
      (alignedStart tza p < startDate p ->
       1 <= Z.of_nat (length (cells tza p)) <= padding tza p
       /\ Forall (fun c => date c < startDate p) (cells tza p)
       /\ monthLabels tza p = [])
      /\ (alignedStart tza p = startDate p ->
          cells tza p
          = [{| date := startDate p;
                count := default 0 (data p !! isoDate (startDate p));
                x := 0; y := 0 |}]
          /\ monthLabels tza p
             = [{| month := monthShort tza (startDate p); label_x := 0 |}])).
Proof.
  intros Hw Hlt.
  destruct (alignedStart_padding tza p Hw) as [Ha Hp].
  pose proof (length_cells tza p) as Hlen.
  split; [exact Hlen|].
  assert (totalDays tza p <= Z.max (padding tza p) 1) as Hmax.
  { unfold totalDays, differenceInDays. rewrite Ha. unfold addDays.
    set (k := padding tza p) in *. clearbody k.
    unfold msPerDay. Z.quot_rem_to_equations. lia. }
  split; [lia|]. split.
  { rewrite Ha. unfold addDays, msPerDay. lia. }
  split.
  { intros H%totalDays_nonpos. split; [done|].
    apply cells_nil_iff in H as Hc. split; [done|].
    unfold monthLabels. by rewrite Hc. }
  intros Hpos.
  assert (1 <= totalDays tza p) as Hone.
  { destruct (Z_le_gt_dec (totalDays tza p) 0) as [H0|H0]; [|lia].
    apply totalDays_nonpos in H0. lia. }
  split.
  - intros Hpad.
    assert (1 <= padding tza p) as Hk.
    { rewrite Ha in Hpad. unfold addDays, msPerDay in Hpad. lia. }
    assert (Forall (fun c => date c < startDate p) (cells tza p)) as Hall.
    { apply Forall_forall. intros c (i & Hi & ->)%elem_of_cells.
      unfold cellAt; cbn [date]. rewrite Ha. unfold addDays, msPerDay. lia. }
    split; [lia|]. split; [exact Hall|]. by apply labels_of_padding.
  - intros Heq.
    assert (padding tza p = 0) as Hk.
    { rewrite Ha in Heq. unfold addDays, msPerDay in Heq. lia. }
    assert (totalDays tza p = 1) as Ht by lia.
    assert (cells tza p
            = [{| date := startDate p;
                  count := default 0 (data p !! isoDate (startDate p));
                  x := 0; y := 0 |}]) as Hcells.
    { rewrite cells_map, Ht. change (seqZ 0 1) with [0]. simpl fmap.
      f_equal. unfold cellAt, countAt. rewrite Heq.
      replace (addDays (startDate p) 0) with (startDate p)
        by (unfold addDays; lia).
      rewrite Qfloor_div7. change (0 / 7) with 0. change (0 `rem` 7) with 0.
      rewrite !Z.mul_0_l. f_equal.
      destruct (data p !! _) as [v|]; simpl; [|done].
      destruct (Z.eqb_spec v 0); congruence. }
    split; [exact Hcells|].
    unfold monthLabels. rewrite Hcells. cbn [foldl labelStep date x].
    destruct (Z.ltb_spec (startDate p) (startDate p)); [lia|].
    rewrite bool_decide_eq_false_2 by (apply not_elem_of_empty).
    reflexivity.
Qed.

Lemma inverted_range_cells_witness :
  (weekStart inverted_wednesday = 0 \/ weekStart inverted_wednesday = 1)
  /\ endDate inverted_wednesday < startDate inverted_wednesday
  /\ length (cells 0 inverted_wednesday)
     = Z.to_nat (differenceInDays (endDate inverted_wednesday)
                   (alignedStart 0 inverted_wednesday) + 1)
  /\ (length (cells 0 inverted_wednesday) <= 6)%nat
  /\ alignedStart 0 inverted_wednesday <= startDate inverted_wednesday
  /\ (endDate inverted_wednesday + msPerDay
      <= alignedStart 0 inverted_wednesday ->
      totalDays 0 inverted_wednesday <= 0
      /\ cells 0 inverted_wednesday = []
      /\ monthLabels 0 inverted_wednesday = [])
  /\ (alignedStart 0 inverted_wednesday
      < endDate inverted_wednesday + msPerDay ->
      (alignedStart 0 inverted_wednesday < startDate inverted_wednesday ->
       1 <= Z.of_nat (length (cells 0 inverted_wednesday))
         <= padding 0 inverted_wednesday
       /\ Forall (fun c => date c < startDate inverted_wednesday)
            (cells 0 inverted_wednesday)
       /\ monthLabels 0 inverted_wednesday = [])
      /\ (alignedStart 0 inverted_wednesday = startDate inverted_wednesday ->
          cells 0 inverted_wednesday
          = [{| date := startDate inverted_wednesday;
                count := default 0
                           (data inverted_wednesday
                              !! isoDate (startDate inverted_wednesday));
                x := 0; y := 0 |}]
          /\ monthLabels 0 inverted_wednesday
             = [{| month := monthShort 0 (startDate inverted_wednesday);
                   label_x := 0 |}])).
Proof.
  assert (Hw : weekStart inverted_wednesday = 0
               \/ weekStart inverted_wednesday = 1) by (left; reflexivity).
  assert (Hlt : endDate inverted_wednesday < startDate inverted_wednesday)
    by reflexivity.
  split; [exact Hw|]. split; [exact Hlt|].
  exact (inverted_range_cells 0 inverted_wednesday Hw Hlt).
Defined.

(** The three cases on samples: no cell two weeks back; three padding
    cells and no label one day back from a Wednesday; and the labelled
    cell of [startDate] itself half a day back on a Sunday. *)
Example inverted_range_samples :
  cells 0 inverted_fortnight = []
  /\ length (cells 0 inverted_wednesday) = 3%nat
  /\ monthLabels 0 inverted_wednesday = []
  /\ cells 0 inverted_sunday_noon
     = [{| date := startDate inverted_sunday_noon; count := 0;
           x := 0; y := 0 |}]
  /\ monthLabels 0 inverted_sunday_noon
     = [{| month := "Jan"; label_x := 0 |}].
Proof. repeat split; by vm_compute. Qed.

(** ** The examples of the specification *)

(** One recorded day, shown alone: a single cell that is not padding, with
    count 5, scaled against a maximum of 5 and filled with the base colour
    itself. *)
Example single_day :
  let p := props {[ "2024-01-01" := 5 ]} d2024_01_01 d2024_01_01 0 in
  filter (visible p) (cells 0 p)
  = [{| date := d2024_01_01; count := 5; x := 0; y := 18 |}]
  /\ maxCount p = 5
  /\ cellColor p {| date := d2024_01_01; count := 5; x := 0; y := 18 |}
     = "rgb(35, 154, 59)"
  /\ monthLabels 0 p = [{| month := "Jan"; label_x := 0 |}].
Proof. repeat split; by vm_compute. Qed.

(** Without data every cell is empty and neutral, and the maximum is 1. *)
Lemma cell_count_empty (tza : Z) (p : HeatmapProps) (i : Z) :
  data p = ∅ -> count (cellAt tza p i) = 0.
Proof.
  intros H. unfold cellAt, countAt. cbn [count]. by rewrite H, lookup_empty.
Qed.

Lemma empty_data_neutral (tza : Z) (p : HeatmapProps) :
  data p = ∅ ->
  maxCount p = 1
  /\ Forall (fun c => count c = 0 /\ cellColor p c = "#ebedf0") (cells tza p).
Proof.
  intros H. split.
  { unfold maxCount. by rewrite H, map_to_list_empty. }
  apply Forall_forall. intros c Hc.
  rewrite cells_map in Hc. apply list_elem_of_fmap in Hc as (i & -> & _).
  pose proof (cell_count_empty tza p i H) as H0.
  split; [done|]. unfold cellColor. rewrite H0. apply neutral_zero.
Qed.

(** * Further properties of the component *)

(** ** More about the grid *)

Lemma getDay_alignedStart (tza : Z) (p : HeatmapProps) :
  weekStart p = 0 \/ weekStart p = 1 ->
  getDay tza (alignedStart tza p) = weekStart p.
Proof.
  intros Hw. destruct (alignedStart_padding tza p Hw) as [-> _].
  rewrite getDay_addDays. unfold padding.
  pose proof (getDay_range tza (startDate p)) as Hd.
  set (d := getDay tza (startDate p)) in *.
  destruct Hw as [-> | ->]; Z.div_mod_to_equations; lia.
Qed.

Lemma lookup_cells_inv (tza : Z) (p : HeatmapProps) (n : nat) (c : Cell) :
  cells tza p !! n = Some c ->
  Z.of_nat n < totalDays tza p /\ c = cellAt tza p (Z.of_nat n).
Proof.
  intros H. pose proof (lookup_lt_Some _ _ _ H) as Hlt.
  rewrite length_cells in Hlt. assert (Z.of_nat n < totalDays tza p) by lia.
  split; [done|].
  pose proof (lookup_cells tza p (Z.of_nat n) ltac:(lia)) as H'.
  rewrite Nat2Z.id in H'. congruence.
Qed.

Lemma cellAt_xy (tza : Z) (p : HeatmapProps) (i : Z) :
  0 <= i ->
  x (cellAt tza p i) = (i / 7) * (cellSize p + cellSpacing p)
  /\ y (cellAt tza p i) = (i mod 7) * (cellSize p + cellSpacing p).
Proof.
  intros Hi. unfold cellAt; cbn [x y].
  by rewrite Qfloor_div7, Z.rem_mod_nonneg by lia.
Qed.

(** X1. Each row of the grid holds one weekday. *)
Theorem rows_hold_weekdays (tza : Z) (p : HeatmapProps) (i : Z) :
  weekStart p = 0 \/ weekStart p = 1 ->
  0 <= i < totalDays tza p ->
  exists c,
    cells tza p !! Z.to_nat i = Some c
    /\ getDay tza (date c) = (weekStart p + i) mod 7
    /\ y c = ((getDay tza (date c) - weekStart p) mod 7)
             * (cellSize p + cellSpacing p).
Proof.
  intros Hw Hi. exists (cellAt tza p i). split; [by apply lookup_cells|].
  assert (getDay tza (date (cellAt tza p i)) = (weekStart p + i) mod 7) as Hd.
  { unfold cellAt; cbn [date]. rewrite getDay_addDays.
    by rewrite getDay_alignedStart. }
  split; [exact Hd|]. rewrite Hd. destruct (cellAt_xy tza p i) as [_ ->]; [lia|].
  f_equal. Z.div_mod_to_equations. lia.
Qed.

(** X2. The legend names the rows Monday first whatever [weekStart] is:
    with weeks starting on Monday a row's legend is the weekday of its
    cells, with weeks starting on Sunday it is the weekday after. *)
Theorem legend_against_rows (tza : Z) (p : HeatmapProps) (i : Z) :
  weekStart p = 0 \/ weekStart p = 1 ->
  0 <= i < totalDays tza p ->
  exists c,
    cells tza p !! Z.to_nat i = Some c
    /\ weekLabels !! Z.to_nat (i mod 7)
       = dayNames !! Z.to_nat ((getDay tza (date c) + 1 - weekStart p) mod 7).
Proof.
  intros Hw Hi. exists (cellAt tza p i). split; [by apply lookup_cells|].
  assert (getDay tza (date (cellAt tza p i)) = (weekStart p + i) mod 7) as ->.
  { unfold cellAt; cbn [date]. rewrite getDay_addDays.
    by rewrite getDay_alignedStart. }
  assert (((weekStart p + i) mod 7 + 1 - weekStart p) mod 7 = (i mod 7 + 1) mod 7)
    as -> by (Z.div_mod_to_equations; lia).
  pose proof (Z.mod_pos_bound i 7 ltac:(lia)) as Hr.
  assert (i mod 7 = 0 \/ i mod 7 = 1 \/ i mod 7 = 2 \/ i mod 7 = 3
          \/ i mod 7 = 4 \/ i mod 7 = 5 \/ i mod 7 = 6) as Hcases by lia.
  destruct Hcases as [-> | [-> | [-> | [-> | [-> | [-> | ->]]]]]]; reflexivity.
Qed.

Lemma totalDays_forward (tza : Z) (p : HeatmapProps) :
  weekStart p = 0 \/ weekStart p = 1 ->
  startDate p <= endDate p ->
  totalDays tza p
  = differenceInDays (endDate p) (startDate p) + padding tza p + 1
  /\ 0 <= differenceInDays (endDate p) (startDate p).
Proof.
  intros Hw Hle. destruct (alignedStart_padding tza p Hw) as [Ha Hp].
  unfold totalDays. rewrite Ha. unfold differenceInDays, addDays, msPerDay.
  set (k := padding tza p) in *. Z.quot_rem_to_equations. lia.
Qed.

(** X3. A forward range is covered exactly: the cell after the padding is
    [startDate] itself, no cell lies after [endDate], and the last cell is
    less than a day before [endDate]. *)
Theorem range_is_covered (tza : Z) (p : HeatmapProps) :
  weekStart p = 0 \/ weekStart p = 1 ->
  startDate p <= endDate p ->
  (exists c, cells tza p !! Z.to_nat (padding tza p) = Some c
             /\ date c = startDate p)
  /\ (forall c, c ∈ cells tza p -> date c <= endDate p)
  /\ (exists c, last (cells tza p) = Some c
                /\ endDate p < date c + msPerDay).
Proof.
  intros Hw Hle. destruct (alignedStart_padding tza p Hw) as [Ha Hp].
  destruct (totalDays_forward tza p Hw Hle) as [Ht Hd].
  assert (forall i, date (cellAt tza p i)
                    = startDate p + (i - padding tza p) * msPerDay) as Hdate.
  { intros i. unfold cellAt; cbn [date]. rewrite Ha. unfold addDays. lia. }
  split; [|split].
  - exists (cellAt tza p (padding tza p)). split.
    + apply lookup_cells. lia.
    + rewrite Hdate. lia.
  - intros c (i & Hi & ->)%elem_of_cells. rewrite Hdate.
    revert Ht Hi. unfold differenceInDays, msPerDay.
    Z.quot_rem_to_equations. lia.
  - exists (cellAt tza p (totalDays tza p - 1)). split.
    + rewrite last_lookup, length_cells.
      replace (Nat.pred (Z.to_nat (totalDays tza p)))
        with (Z.to_nat (totalDays tza p - 1)) by lia.
      apply lookup_cells. lia.
    + rewrite Hdate. revert Ht. unfold differenceInDays, msPerDay.
      Z.quot_rem_to_equations. lia.
Qed.

Lemma filter_none {A} (P : A -> Prop) `{forall a, Decision (P a)} (l : list A) :
  Forall (fun a => ~ P a) l -> filter P l = [].
Proof.
  induction 1 as [|a l Ha _ IH]; [done|]. by rewrite filter_cons_False.
Qed.

Lemma filter_all {A} (P : A -> Prop) `{forall a, Decision (P a)} (l : list A) :
  Forall P l -> filter P l = l.
Proof.
  induction 1 as [|a l Ha _ IH]; [done|]. rewrite filter_cons_True by done.
  by rewrite IH.
Qed.

(** X4. In a forward range the cells hidden from the month labels are
    exactly the padding in front: at most six, and the others number the
    days from [startDate] to [endDate]. *)
Theorem padding_is_the_front (tza : Z) (p : HeatmapProps) :
  weekStart p = 0 \/ weekStart p = 1 ->
  startDate p <= endDate p ->
  filter (visible p) (cells tza p)
  = drop (Z.to_nat (padding tza p)) (cells tza p)
  /\ 0 <= padding tza p <= 6
  /\ length (filter (visible p) (cells tza p))
     = Z.to_nat (differenceInDays (endDate p) (startDate p) + 1).
Proof.
  intros Hw Hle. destruct (alignedStart_padding tza p Hw) as [Ha Hp].
  destruct (totalDays_forward tza p Hw Hle) as [Ht Hd].
  assert (forall i, visible p (cellAt tza p i) <-> padding tza p <= i) as Hvis.
  { intros i. unfold visible, cellAt; cbn [date]. rewrite Ha.
    unfold addDays, msPerDay. lia. }
  set (k := padding tza p) in *.
  assert (filter (visible p) (cells tza p) = drop (Z.to_nat k) (cells tza p))
    as Hf.
  { rewrite cells_map.
    replace (totalDays tza p) with (k + (totalDays tza p - k)) by lia.
    rewrite seqZ_app, fmap_app, filter_app by lia.
    rewrite filter_none, filter_all.
    - rewrite drop_app_length'; [done|]. rewrite length_fmap, length_seqZ. lia.
    - apply Forall_fmap, Forall_forall. intros i Hi%elem_of_seqZ.
      apply Hvis. lia.
    - apply Forall_fmap, Forall_forall. intros i Hi%elem_of_seqZ.
      simpl. rewrite Hvis. lia. }
  split; [exact Hf|]. split; [exact Hp|].
  rewrite Hf, length_drop, length_cells. lia.
Qed.

(** ** The shapes on the canvas *)

Lemma weekIndex_below_totalWeeks (tza : Z) (p : HeatmapProps) (i : Z) :
  0 <= i < totalDays tza p -> 0 <= i / 7 <= totalWeeks tza p - 1.
Proof.
  intros Hi. unfold totalWeeks. rewrite Qceiling_div7.
  Z.div_mod_to_equations. lia.
Qed.

Lemma cell_offsets_range (tza : Z) (p : HeatmapProps) (c : Cell) :
  0 <= cellSize p + cellSpacing p ->
  c ∈ cells tza p ->
  0 <= x c <= (totalWeeks tza p - 1) * (cellSize p + cellSpacing p)
  /\ 0 <= y c <= 6 * (cellSize p + cellSpacing p).
Proof.
  intros Hs (i & Hi & ->)%elem_of_cells.
  destruct (cellAt_xy tza p i ltac:(lia)) as [-> ->].
  pose proof (weekIndex_below_totalWeeks tza p i Hi).
  pose proof (Z.mod_pos_bound i 7 ltac:(lia)). nia.
Qed.

(** X5. With non-negative sizes every rectangle lies inside the canvas,
    to the right of the legend column and below the month-label row. *)
Theorem rect_inside_canvas (tza : Z) (p : HeatmapProps) (c : Cell) :
  0 <= cellSize p -> 0 <= cellSpacing p ->
  c ∈ cells tza p ->
  50 <= rect_x (rectOf p c)
  /\ rect_x (rectOf p c) + rect_width (rectOf p c) <= svgWidth tza p
  /\ 20 <= rect_y (rectOf p c)
  /\ rect_y (rectOf p c) + rect_height (rectOf p c) <= svgHeight p.
Proof.
  intros Hs Hg Hc.
  destruct (cell_offsets_range tza p c ltac:(lia) Hc) as [Hx Hy].
  unfold rectOf, svgWidth, svgHeight; cbn. lia.
Qed.

(** X6. With a positive step two different cells are at least one step
    apart in one direction, so their shapes never overlap when the spacing
    is not negative; and the offsets of a cell give back its index. *)
Theorem cells_apart (tza : Z) (p : HeatmapProps) (i j : Z) :
  0 < cellSize p + cellSpacing p ->
  0 <= i < totalDays tza p -> 0 <= j < totalDays tza p -> i <> j ->
  exists ci cj,
    cells tza p !! Z.to_nat i = Some ci
    /\ cells tza p !! Z.to_nat j = Some cj
    /\ (cellSize p + cellSpacing p <= Z.abs (x ci - x cj)
        \/ cellSize p + cellSpacing p <= Z.abs (y ci - y cj))
    /\ i = 7 * (x ci / (cellSize p + cellSpacing p))
           + y ci / (cellSize p + cellSpacing p).
Proof.
  intros Hs Hi Hj Hne. exists (cellAt tza p i), (cellAt tza p j).
  split; [by apply lookup_cells|]. split; [by apply lookup_cells|].
  destruct (cellAt_xy tza p i ltac:(lia)) as [-> ->].
  destruct (cellAt_xy tza p j ltac:(lia)) as [-> ->].
  set (s := cellSize p + cellSpacing p) in *. split.
  - destruct (Z.eq_dec (i / 7) (j / 7)) as [Heq|Hw].
    + right. assert (i mod 7 <> j mod 7) by (Z.div_mod_to_equations; lia). nia.
    + left. nia.
  - rewrite !Z.div_mul by lia. Z.div_mod_to_equations. lia.
Qed.

(** ** More about the month labels *)

Lemma getMonth_range (tza t : Z) : 0 <= getMonth tza t <= 11.
Proof.
  unfold getMonth. pose proof (civil_ranges (Day (LocalTime tza t))) as H.
  destruct (civil _) as [[yr m] d]. lia.
Qed.

Lemma monthShort_name (tza t : Z) : monthShort tza t ∈ monthNames.
Proof.
  unfold monthShort. pose proof (getMonth_range tza t) as H.
  destruct (monthNames !! Z.to_nat (getMonth tza t)) as [m|] eqn:E.
  - simpl. by eapply list_elem_of_lookup_2.
  - apply lookup_ge_None in E. simpl in E. lia.
Qed.

Lemma sorted_offsets (R : MonthLabel -> nat -> Prop)
    (labels : list MonthLabel) (idx : list nat) :
  (forall l i l' i', R l i -> R l' i' -> (i < i')%nat -> label_x l <= label_x l') ->
  Forall2 R labels idx -> StronglySorted lt idx ->
  StronglySorted Z.le (label_x <$> labels).
Proof.
  intros Hmono HF. induction HF as [|l i labels idx Hli HF IH]; intros Hs.
  - constructor.
  - apply StronglySorted_inv in Hs as [Hs Hall]. simpl.
    constructor; [by apply IH|].
    apply Forall_fmap, Forall_forall. intros l' Hl'.
    apply list_elem_of_lookup in Hl' as [n Hn].
    destruct (Forall2_lookup_l _ _ _ _ _ HF Hn) as (i' & Hi' & Hr).
    simpl. eapply Hmono; [exact Hli|exact Hr|].
    rewrite Forall_forall in Hall. apply Hall.
    by eapply list_elem_of_lookup_2.
Qed.

(** X7. There are never more than twelve month labels, whatever the
    sizes; with a non-negative step their offsets do not decrease along
    the list, and every label text starts inside the canvas, at the left
    edge of a column. *)
Theorem month_labels_on_canvas (tza : Z) (p : HeatmapProps) :
  (length (monthLabels tza p) <= 12)%nat
  /\ (0 <= cellSize p + cellSpacing p ->
      StronglySorted Z.le (label_x <$> monthLabels tza p)
      /\ Forall
           (fun l =>
              50 <= text_x (monthText l) <= svgWidth tza p
              /\ exists w, 0 <= w < totalWeeks tza p
                           /\ label_x l = w * (cellSize p + cellSpacing p))
           (monthLabels tza p)).
Proof.
  destruct (labels_inv_fold tza p (cells tza p))
    as (Hseen & Hlab & Hnd & idx & Hsort & _ & Hfirst).
  fold (monthLabels tza p) in Hlab, Hnd, Hfirst.
  split; [|intros Hs; split].
  - rewrite <- (length_fmap month).
    change 12%nat with (length monthNames).
    apply submseteq_length, NoDup_submseteq; [done|].
    intros m (c & _ & _ & <-)%Hlab%Hseen. apply monthShort_name.
  - eapply sorted_offsets; [|exact Hfirst|exact Hsort].
    intros l i l' i' (c & (Hc & _) & ->) (c' & (Hc' & _) & ->) Hlt.
    apply lookup_cells_inv in Hc as [Hi ->], Hc' as [Hi' ->].
    cbn [labelOf label_x].
    destruct (cellAt_xy tza p (Z.of_nat i) ltac:(lia)) as [-> _].
    destruct (cellAt_xy tza p (Z.of_nat i') ltac:(lia)) as [-> _].
    apply Z.mul_le_mono_nonneg_r; [done|].
    apply Z.div_le_mono; lia.
  - apply Forall_forall. intros l Hl.
    apply list_elem_of_lookup in Hl as [n Hn].
    destruct (Forall2_lookup_l _ _ _ _ _ Hfirst Hn) as (i & _ & c & (Hc & _) & ->).
    apply lookup_cells_inv in Hc as [Hi ->].
    cbn [monthText labelOf label_x text_x].
    destruct (cellAt_xy tza p (Z.of_nat i) ltac:(lia)) as [-> _].
    pose proof (weekIndex_below_totalWeeks tza p (Z.of_nat i) ltac:(lia)) as Hw.
    split.
    + unfold svgWidth. nia.
    + exists (Z.of_nat i / 7). split; [lia|done].
Qed.

(** X8. In a forward range the first month label is the month of
    [startDate], in the first column. *)
Theorem first_label_is_start_month (tza : Z) (p : HeatmapProps) :
  weekStart p = 0 \/ weekStart p = 1 ->
  startDate p <= endDate p ->
  head (monthLabels tza p)
  = Some {| month := monthShort tza (startDate p); label_x := 0 |}.
Proof.
  intros Hw Hle. destruct (alignedStart_padding tza p Hw) as [Ha Hp].
  destruct (totalDays_forward tza p Hw Hle) as [Ht Hd].
  destruct (labels_inv_fold tza p (cells tza p))
    as (Hseen & Hlab & Hnd & idx & Hsort & _ & Hfirst).
  fold (monthLabels tza p) in Hlab, Hnd, Hfirst.
  set (k := padding tza p) in *. set (c0 := cellAt tza p k).
  assert (cells tza p !! Z.to_nat k = Some c0) as Hc0
    by (apply lookup_cells; lia).
  assert (forall i, visible p (cellAt tza p i) <-> k <= i) as Hvis.
  { intros i. unfold visible, cellAt; cbn [date]. rewrite Ha.
    unfold addDays, msPerDay. lia. }
  assert (labelOf tza c0
          = {| month := monthShort tza (startDate p); label_x := 0 |}) as Hl0.
  { unfold labelOf, monthOf, c0.
    destruct (cellAt_xy tza p k ltac:(lia)) as [-> _].
    rewrite Z.div_small by lia. f_equal.
    unfold cellAt; cbn [date]. rewrite Ha. unfold addDays.
    f_equal. lia. }
  assert (monthOf tza c0 ∈ month <$> monthLabels tza p) as Hin.
  { apply Hlab, Hseen. exists c0. split; [by eapply list_elem_of_lookup_2|].
    split; [by apply Hvis|done]. }
  apply list_elem_of_fmap in Hin as (l & Hml & Hl).
  apply list_elem_of_lookup in Hl as [n Hn].
  destruct (Forall2_lookup_l _ _ _ _ _ Hfirst Hn)
    as (i & Hi & c & (Hc & Hv & Hfst) & ->).
  apply lookup_cells_inv in Hc as Hc'. destruct Hc' as [Hlt ->].
  assert (Z.of_nat i = k) as Hik.
  { apply Hvis in Hv. destruct (Z.eq_dec (Z.of_nat i) k) as [|Hne]; [done|].
    exfalso. apply (Hfst (Z.to_nat k) c0); [lia|done|by apply Hvis|].
    by rewrite Hml. }
  destruct Hfirst as [|l0 i0 labels idx' Hl0i0 Hrest]; [done|].
  simpl. f_equal. rewrite <- Hl0.
  destruct n as [|n]; simpl in Hn, Hi.
  - simplify_eq. by rewrite Hik.
  - exfalso. destruct Hl0i0 as (c1 & (Hc1 & Hv1 & _) & _).
    apply lookup_cells_inv in Hc1 as [_ ->]. apply Hvis in Hv1.
    apply StronglySorted_inv in Hsort as [_ Hall].
    rewrite Forall_forall in Hall.
    assert (i0 < i)%nat by (apply Hall; by eapply list_elem_of_lookup_2). lia.
Qed.

(** ** Colours of the cells *)

Lemma cell_count_bound (tza : Z) (p : HeatmapProps) (c : Cell) :
  c ∈ cells tza p -> count c <= maxCount p.
Proof.
  intros (i & _ & ->)%elem_of_cells. unfold cellAt, countAt; cbn [count].
  pose proof (foldr_max_lower (map_to_list (data p)).*2) as Hlow.
  fold (maxCount p) in Hlow.
  destruct (data p !! _) as [v|] eqn:E; [|lia].
  destruct (Z.eqb_spec v 0); [lia|].
  apply foldr_max_upper, elem_of_values. eauto.
Qed.

Lemma maxCount_pos (p : HeatmapProps) : 0 < maxCount p.
Proof.
  pose proof (foldr_max_lower (map_to_list (data p)).*2) as Hlow.
  fold (maxCount p) in Hlow. lia.
Qed.

Lemma positive_colour (count : Z) (baseColor : string) (maxCount : Z) :
  0 < count ->
  getColorForCount count baseColor maxCount
  = let '(r, g, b) := shadeChannels baseColor (intensity count maxCount) in
    rgb r g b.
Proof.
  intros H. unfold getColorForCount. destruct (Z.leb_spec count 0); [lia|].
  apply shadeColor_channels.
Qed.

(** X9. No cell counts more than the maximum the colours are scaled by,
    and with a well-formed base colour a cell that holds the maximum is
    filled with the string [rgb(r, g, b)] of the base colour's own channel
    values. *)
Theorem busiest_cell_has_base_colour (tza : Z) (p : HeatmapProps) (c : Cell) :
  c ∈ cells tza p ->
  count c <= maxCount p
  /\ (wellFormed (baseColor p) = true -> count c = maxCount p ->
      cellColor p c
      = "rgb(" +:+ pretty (hexValue (String.substring 1 2 (baseColor p)))
          +:+ ", " +:+ pretty (hexValue (String.substring 3 2 (baseColor p)))
          +:+ ", " +:+ pretty (hexValue (String.substring 5 2 (baseColor p)))
          +:+ ")").
Proof.
  intros Hc. split; [by eapply cell_count_bound|].
  intros (Hch & Hr & Hg & Hb)%wellFormed_hexValue Heq.
  pose proof (maxCount_pos p) as Hm.
  unfold cellColor. rewrite Heq, positive_colour by done.
  assert (intensity (maxCount p) (maxCount p) == 1)%Q as Hi.
  { apply intensity_saturated; [done|]. apply rawIntensity_at_max; lia. }
  unfold shadeChannels. rewrite Hch. cbn [mix].
  rewrite !mixValue_one by done. apply rgb_literal.
Qed.

(** X10. With a well-formed base colour every cell is filled either with
    the neutral colour, when it has no positive count, or with a string
    [rgb(r, g, b)] of three integers, each between the base colour's
    channel and 255. *)
Theorem every_cell_has_a_colour (tza : Z) (p : HeatmapProps) (c : Cell) :
  wellFormed (baseColor p) = true ->
  c ∈ cells tza p ->
  (count c <= 0 /\ cellColor p c = "#ebedf0")
  \/ (0 < count c
      /\ exists r g b,
           cellColor p c
           = "rgb(" +:+ pretty r +:+ ", " +:+ pretty g +:+ ", "
               +:+ pretty b +:+ ")"
           /\ hexValue (String.substring 1 2 (baseColor p)) <= r <= 255
           /\ hexValue (String.substring 3 2 (baseColor p)) <= g <= 255
           /\ hexValue (String.substring 5 2 (baseColor p)) <= b <= 255).
Proof.
  intros (Hch & Hr & Hg & Hb)%wellFormed_hexValue Hc.
  destruct (Z_le_gt_dec (count c) 0) as [Hle|Hgt].
  - left. split; [done|]. unfold cellColor, getColorForCount.
    destruct (Z.leb_spec (count c) 0); [done|lia].
  - right. split; [lia|]. pose proof (maxCount_pos p) as Hm.
    pose proof (intensity_range (count c) (maxCount p) Hm ltac:(lia))
      as [Hlo Hhi].
    set (i := intensity (count c) (maxCount p)) in *.
    set (r := hexValue (String.substring 1 2 (baseColor p))) in *.
    set (g := hexValue (String.substring 3 2 (baseColor p))) in *.
    set (b := hexValue (String.substring 5 2 (baseColor p))) in *.
    exists (mixValue i r), (mixValue i g), (mixValue i b).
    split.
    + unfold cellColor. rewrite positive_colour by lia. fold i.
      unfold shadeChannels. rewrite Hch. apply rgb_literal.
    + pose proof (mixValue_between i i r Hr Hlo (Qle_refl i) Hhi).
      pose proof (mixValue_between i i g Hg Hlo (Qle_refl i) Hhi).
      pose proof (mixValue_between i i b Hb Hlo (Qle_refl i) Hhi).
      lia.
Qed.

Lemma mixValue_channel_mono (i : Q) (ch1 ch2 : Z) :
  0 <= ch1 -> ch1 <= ch2 -> ch2 <= 255 -> (0 <= i)%Q -> (i <= 1)%Q ->
  mixValue i ch1 <= mixValue i ch2.
Proof.
  intros H0 H12 H255 Hi0 Hi1. unfold mixValue. apply round_le.
  unfold sub at 1 3. apply rnd_mono, Qplus_le_r, Qopp_le_compat.
  unfold mul. apply rnd_mono.
  rewrite (sub_255_byte ch1), (sub_255_byte ch2) by lia.
  apply Qmult_le_compat_r; [|done]. rewrite <- Zle_Qle. lia.
Qed.

Lemma intensity_floor (count m : Z) :
  0 < m -> 0 < count -> (c0_35 <= intensity count m)%Q.
Proof.
  intros Hm Hc. rewrite intensity_pos_max by done.
  apply Q.min_glb.
  - rewrite rawIntensity_term.
    eapply Qle_trans; [|apply term_mono, (quotient_nonneg count m); lia].
    apply Qle_bool_iff. by vm_compute.
  - apply Qle_bool_iff. by vm_compute.
Qed.

(** X11. The floor of the intensity keeps every positive count apart from
    white: with a positive maximum, a channel of the base colour that is at
    most 253 never comes out as 255. *)
Theorem positive_count_is_not_white
    (count maxCount ch : Z) :
  0 < maxCount -> 0 < count -> 0 <= ch <= 253 ->
  (c0_35 <= intensity count maxCount)%Q
  /\ mix (intensity count maxCount) (Some ch)
     = Some (mixValue (intensity count maxCount) ch)
  /\ ch <= mixValue (intensity count maxCount) ch <= 254.
Proof.
  intros Hm Hc Hch.
  pose proof (intensity_floor count maxCount Hm Hc) as Hfl.
  pose proof (intensity_range count maxCount Hm ltac:(lia)) as [Hlo Hhi].
  set (i := intensity count maxCount) in *.
  split; [exact Hfl|]. split; [reflexivity|].
  pose proof (mixValue_between i i ch ltac:(lia) Hlo (Qle_refl i) Hhi) as [Hb _].
  split; [exact Hb|].
  etrans; [apply (mixValue_anti c0_35 i ch); [lia|exact Hfl]|].
  etrans; [apply (mixValue_channel_mono c0_35 ch 253); try lia|].
  - apply Qle_bool_iff. by vm_compute.
  - apply Qle_bool_iff. by vm_compute.
  - by vm_compute.
Qed.

(** ** The key of a cell *)

(** X12. The key looked up in [data] is the UTC date of the cell.  For a
    cell at local midnight it is the local date in a zone at or behind UTC,
    and the date of the day before in a zone ahead of UTC. *)
Theorem key_of_local_midnight (tza : Z) (p : HeatmapProps) (i : Z) :
  - msPerDay < tza < msPerDay ->
  LocalTime tza (startDate p) mod msPerDay = 0 ->
  0 <= i < totalDays tza p ->
  exists c,
    cells tza p !! Z.to_nat i = Some c
    /\ LocalTime tza (date c) mod msPerDay = 0
    /\ count c
       = default 0
           (data p !! String.substring 0 10
              (isoDateString
                 (Day (LocalTime tza (date c)) - (if 0 <? tza then 1 else 0)))).
Proof.
  intros Htz Hmid Hi. exists (cellAt tza p i).
  split; [by apply lookup_cells|].
  assert (LocalTime tza (date (cellAt tza p i)) mod msPerDay = 0) as Hm.
  { revert Hmid. unfold cellAt, alignedStart, addDays, LocalTime; cbn [date].
    generalize ((getDay tza (startDate p) - weekStart p + 7) `rem` 7).
    intros k. unfold msPerDay. Z.div_mod_to_equations. lia. }
  split; [exact Hm|]. revert Hm. unfold cellAt, countAt; cbn [date count].
  generalize (addDays (alignedStart tza p) i). intros t Hm.
  assert (Day t = Day (LocalTime tza t) - (if 0 <? tza then 1 else 0)) as <-.
  { revert Hm Htz. unfold Day, LocalTime, msPerDay.
    destruct (Z.ltb_spec 0 tza); Z.div_mod_to_equations; lia. }
  fold (isoDate t). destruct (data p !! isoDate t) as [v|]; simpl; [|done].
  destruct (Z.eqb_spec v 0); congruence.
Qed.

(** ** The hover state *)


(** ** Colours that are not well formed *)



(** ** Circles *)

Lemma half_exact (n : Z) :
  - 2 ^ 52 < n < 2 ^ 52 ->
  (div (ofZ n) 2 == inject_Z n * pow2 (-1))%Q.
Proof.
  intros Hn. unfold div, ofZ. rewrite (rnd_int n) by lia.
  assert (inject_Z n / 2 == inject_Z n * pow2 (-1))%Q as E
    by (change (pow2 (-1)) with (1 # 2)%Q; field).
  rewrite (rnd_Qeq _ _ E), rnd_dyadic by lia. by symmetry.
Qed.

Lemma centre_exact (a n : Z) :
  - 2 ^ 51 < a < 2 ^ 51 -> - 2 ^ 51 < n < 2 ^ 51 ->
  (add (ofZ a) (div (ofZ n) 2) == inject_Z a + inject_Z n * pow2 (-1))%Q.
Proof.
  intros Ha Hn. unfold add. rewrite half_exact by lia.
  unfold ofZ. rewrite (rnd_int a) by lia.
  assert (inject_Z a + inject_Z n * pow2 (-1)
          == inject_Z (2 * a + n) * pow2 (-1))%Q as E.
  { rewrite inject_Z_plus, inject_Z_mult.
    change (pow2 (-1)) with (1 # 2)%Q. change (inject_Z 2) with 2%Q. field. }
  rewrite (rnd_Qeq _ _ E), rnd_dyadic by lia. by symmetry.
Qed.

(** X15. A circle is inscribed in the square its rectangle would fill: the
    centre is the middle of the square and the diameter its side, without
    rounding, for sizes and offsets below [2 ^ 50]. *)
Theorem circle_inscribed (tza : Z) (p : HeatmapProps) (c : Cell) :
  0 <= cellSize p -> 0 <= cellSpacing p ->
  svgWidth tza p < 2 ^ 50 -> svgHeight p < 2 ^ 50 ->
  c ∈ cells tza p ->
  (circle_cx (circleOf p c) - circle_r (circleOf p c)
   == inject_Z (rect_x (rectOf p c)))%Q
  /\ (circle_cx (circleOf p c) + circle_r (circleOf p c)
      == inject_Z (rect_x (rectOf p c) + rect_width (rectOf p c)))%Q
  /\ (circle_cy (circleOf p c) - circle_r (circleOf p c)
      == inject_Z (rect_y (rectOf p c)))%Q
  /\ (circle_cy (circleOf p c) + circle_r (circleOf p c)
      == inject_Z (rect_y (rectOf p c) + rect_height (rectOf p c)))%Q.
Proof.
  intros Hs Hg Hw Hh Hc.
  destruct (cell_offsets_range tza p c ltac:(lia) Hc) as [Hx Hy].
  assert (x c + 50 + cellSize p <= svgWidth tza p) as Hx'
    by (unfold svgWidth; lia).
  assert (y c + 20 + cellSize p <= svgHeight p) as Hy'
    by (unfold svgHeight; lia).
  unfold circleOf, rectOf; cbn.
  rewrite !centre_exact, half_exact by lia.
  rewrite !inject_Z_plus. change (pow2 (-1)) with (1 # 2)%Q.
  repeat split; field.
Qed.

(** ** The date of the built-in tooltip *)

Lemma getDate_range (tza t : Z) : 1 <= getDate tza t <= 31.
Proof.
  unfold getDate. pose proof (civil_ranges (Day (LocalTime tza t))) as H.
  destruct (civil _) as [[yr m] d]. lia.
Qed.

Lemma pad_day (d : Z) : 1 <= d <= 31 -> String.length (pad 2 d) = 2%nat.
Proof.
  intros Hd.
  assert (exists n : nat, d = Z.of_nat n /\ (n <= 31)%nat) as (n & -> & Hn)
    by (exists (Z.to_nat d); lia).
  do 32 (destruct n as [|n]; [by vm_compute|]). lia.
Qed.

Lemma length_append (a b : string) :
  String.length (a +:+ b) = (String.length a + String.length b)%nat.
Proof. induction a as [|c a IH]; [done|]. simpl. by rewrite IH. Qed.

Lemma monthNames_three_letters (m : string) :
  m ∈ monthNames -> String.length m = 3%nat.
Proof.
  assert (Forall (fun m => String.length m = 3%nat) monthNames) as H
    by (repeat constructor).
  rewrite Forall_forall in H. apply H.
Qed.

(** X16. The date of the built-in tooltip is always six characters: one
    of the twelve month names, a space, and the local day of the month on
    two digits. *)
Theorem tooltip_date_shape (tza t : Z) :
  String.length (formatMMMdd tza t) = 6%nat
  /\ exists m d,
       m ∈ monthNames /\ 1 <= d <= 31
       /\ String.length (pad 2 d) = 2%nat
       /\ formatMMMdd tza t = m +:+ " " +:+ pad 2 d.
Proof.
  pose proof (monthShort_name tza t) as Hm.
  pose proof (getDate_range tza t) as Hd.
  pose proof (pad_day _ Hd) as Hp.
  unfold formatMMMdd. split.
  - by rewrite !length_append, Hp, (monthNames_three_letters _ Hm).
  - by exists (monthShort tza t), (getDate tza t).
Qed.

(** ** The quotients of the layout in binary64 *)

(** X17. The layout computed on integers is the one binary64 gives: for
    fewer than [2 ^ 49] days the rounded quotient [totalDays / 7] has
    ceiling [totalWeeks], and the rounded quotient [i / 7] has the floor
    that places cell [i]. *)
Theorem layout_quotients_in_binary64 (tza : Z) (p : HeatmapProps) :
  - 2 ^ 49 < totalDays tza p < 2 ^ 49 ->
  Qceiling (div (ofZ (totalDays tza p)) (ofZ 7)) = totalWeeks tza p
  /\ forall i, 0 <= i < totalDays tza p ->
       x (cellAt tza p i)
       = Qfloor (div (ofZ i) (ofZ 7)) * (cellSize p + cellSpacing p).
Proof.
  intros Ht. split.
  - destruct (binary64_week_quotient (totalDays tza p) Ht) as [_ ->].
    unfold totalWeeks. by rewrite Qceiling_div7.
  - intros i Hi.
    destruct (binary64_week_quotient i ltac:(lia)) as [-> _].
    unfold cellAt; cbn [x]. by rewrite Qfloor_div7.
Qed.

(** ** Instances *)

Lemma first_cell_of_one_wednesday :
  cellAt 0 one_wednesday 0 ∈ cells 0 one_wednesday.
Proof. apply (list_elem_of_lookup_2 _ 0%nat). by vm_compute. Qed.

Lemma rows_hold_weekdays_witness :
  (weekStart one_wednesday = 0 \/ weekStart one_wednesday = 1)
  /\ 0 <= 2 < totalDays 0 one_wednesday
  /\ exists c,
       cells 0 one_wednesday !! Z.to_nat 2 = Some c
       /\ getDay 0 (date c) = (weekStart one_wednesday + 2) mod 7
       /\ y c = ((getDay 0 (date c) - weekStart one_wednesday) mod 7)
                * (cellSize one_wednesday + cellSpacing one_wednesday).
Proof.
  assert (Hw : weekStart one_wednesday = 0 \/ weekStart one_wednesday = 1)
    by (right; reflexivity).
  assert (Hi : 0 <= 2 < totalDays 0 one_wednesday)
    by (vm_compute; split; congruence).
  split; [exact Hw|]. split; [exact Hi|].
  exact (rows_hold_weekdays 0 one_wednesday 2 Hw Hi).
Defined.

Lemma legend_against_rows_witness :
  (weekStart thirteen_months = 0 \/ weekStart thirteen_months = 1)
  /\ 0 <= 8 < totalDays 0 thirteen_months
  /\ exists c,
       cells 0 thirteen_months !! Z.to_nat 8 = Some c
       /\ weekLabels !! Z.to_nat (8 mod 7)
          = dayNames
              !! Z.to_nat ((getDay 0 (date c) + 1 - weekStart thirteen_months)
                           mod 7).
Proof.
  assert (Hw : weekStart thirteen_months = 0 \/ weekStart thirteen_months = 1)
    by (left; reflexivity).
  assert (Hi : 0 <= 8 < totalDays 0 thirteen_months)
    by (vm_compute; split; congruence).
  split; [exact Hw|]. split; [exact Hi|].
  exact (legend_against_rows 0 thirteen_months 8 Hw Hi).
Defined.

Lemma range_is_covered_witness :
  (weekStart one_wednesday = 0 \/ weekStart one_wednesday = 1)
  /\ startDate one_wednesday <= endDate one_wednesday
  /\ (exists c, cells 0 one_wednesday !! Z.to_nat (padding 0 one_wednesday)
                = Some c
                /\ date c = startDate one_wednesday)
  /\ (forall c, c ∈ cells 0 one_wednesday -> date c <= endDate one_wednesday)
  /\ (exists c, last (cells 0 one_wednesday) = Some c
                /\ endDate one_wednesday < date c + msPerDay).
Proof.
  assert (Hw : weekStart one_wednesday = 0 \/ weekStart one_wednesday = 1)
    by (right; reflexivity).
  assert (Hle : startDate one_wednesday <= endDate one_wednesday)
    by (vm_compute; congruence).
  split; [exact Hw|]. split; [exact Hle|].
  exact (range_is_covered 0 one_wednesday Hw Hle).
Defined.

Lemma padding_is_the_front_witness :
  (weekStart thirteen_months = 0 \/ weekStart thirteen_months = 1)
  /\ startDate thirteen_months <= endDate thirteen_months
  /\ filter (visible thirteen_months) (cells 0 thirteen_months)
     = drop (Z.to_nat (padding 0 thirteen_months)) (cells 0 thirteen_months)
  /\ 0 <= padding 0 thirteen_months <= 6
  /\ length (filter (visible thirteen_months) (cells 0 thirteen_months))
     = Z.to_nat (differenceInDays (endDate thirteen_months)
                   (startDate thirteen_months) + 1).
Proof.
  assert (Hw : weekStart thirteen_months = 0 \/ weekStart thirteen_months = 1)
    by (left; reflexivity).
  assert (Hle : startDate thirteen_months <= endDate thirteen_months)
    by (vm_compute; congruence).
  split; [exact Hw|]. split; [exact Hle|].
  exact (padding_is_the_front 0 thirteen_months Hw Hle).
Defined.

Lemma rect_inside_canvas_witness :
  0 <= cellSize one_wednesday /\ 0 <= cellSpacing one_wednesday
  /\ cellAt 0 one_wednesday 0 ∈ cells 0 one_wednesday
  /\ 50 <= rect_x (rectOf one_wednesday (cellAt 0 one_wednesday 0))
  /\ rect_x (rectOf one_wednesday (cellAt 0 one_wednesday 0))
     + rect_width (rectOf one_wednesday (cellAt 0 one_wednesday 0))
     <= svgWidth 0 one_wednesday
  /\ 20 <= rect_y (rectOf one_wednesday (cellAt 0 one_wednesday 0))
  /\ rect_y (rectOf one_wednesday (cellAt 0 one_wednesday 0))
     + rect_height (rectOf one_wednesday (cellAt 0 one_wednesday 0))
     <= svgHeight one_wednesday.
Proof.
  assert (Hs : 0 <= cellSize one_wednesday) by (vm_compute; congruence).
  assert (Hg : 0 <= cellSpacing one_wednesday) by (vm_compute; congruence).
  pose proof first_cell_of_one_wednesday as Hc.
  split; [exact Hs|]. split; [exact Hg|]. split; [exact Hc|].
  exact (rect_inside_canvas 0 one_wednesday _ Hs Hg Hc).
Defined.

Lemma cells_apart_witness :
  0 < cellSize thirteen_months + cellSpacing thirteen_months
  /\ 0 <= 9 < totalDays 0 thirteen_months
  /\ 0 <= 16 < totalDays 0 thirteen_months
  /\ 9 <> 16
  /\ exists ci cj,
       cells 0 thirteen_months !! Z.to_nat 9 = Some ci
       /\ cells 0 thirteen_months !! Z.to_nat 16 = Some cj
       /\ (cellSize thirteen_months + cellSpacing thirteen_months
           <= Z.abs (x ci - x cj)
           \/ cellSize thirteen_months + cellSpacing thirteen_months
              <= Z.abs (y ci - y cj))
       /\ 9 = 7 * (x ci / (cellSize thirteen_months + cellSpacing thirteen_months))
              + y ci / (cellSize thirteen_months + cellSpacing thirteen_months).
Proof.
  assert (Hs : 0 < cellSize thirteen_months + cellSpacing thirteen_months)
    by reflexivity.
  assert (Hi : 0 <= 9 < totalDays 0 thirteen_months)
    by (vm_compute; split; congruence).
  assert (Hj : 0 <= 16 < totalDays 0 thirteen_months)
    by (vm_compute; split; congruence).
  assert (Hne : 9 <> 16) by lia.
  split; [exact Hs|]. split; [exact Hi|]. split; [exact Hj|].
  split; [exact Hne|].
  exact (cells_apart 0 thirteen_months 9 16 Hs Hi Hj Hne).
Defined.

Lemma month_labels_on_canvas_witness :
  0 <= cellSize thirteen_months + cellSpacing thirteen_months
  /\ (length (monthLabels 0 thirteen_months) <= 12)%nat
  /\ StronglySorted Z.le (label_x <$> monthLabels 0 thirteen_months)
  /\ Forall
       (fun l =>
          50 <= text_x (monthText l) <= svgWidth 0 thirteen_months
          /\ exists w, 0 <= w < totalWeeks 0 thirteen_months
                       /\ label_x l
                          = w * (cellSize thirteen_months
                                 + cellSpacing thirteen_months))
       (monthLabels 0 thirteen_months).
Proof.
  assert (Hs : 0 <= cellSize thirteen_months + cellSpacing thirteen_months)
    by (vm_compute; congruence).
  split; [exact Hs|]. split.
  - exact (proj1 (month_labels_on_canvas 0 thirteen_months)).
  - exact (proj2 (month_labels_on_canvas 0 thirteen_months) Hs).
Defined.

Lemma first_label_is_start_month_witness :
  (weekStart one_wednesday = 0 \/ weekStart one_wednesday = 1)
  /\ startDate one_wednesday <= endDate one_wednesday
  /\ head (monthLabels 0 one_wednesday)
     = Some {| month := monthShort 0 (startDate one_wednesday);
               label_x := 0 |}.
Proof.
  assert (Hw : weekStart one_wednesday = 0 \/ weekStart one_wednesday = 1)
    by (right; reflexivity).
  assert (Hle : startDate one_wednesday <= endDate one_wednesday)
    by (vm_compute; congruence).
  split; [exact Hw|]. split; [exact Hle|].
  exact (first_label_is_start_month 0 one_wednesday Hw Hle).
Defined.

Lemma busiest_cell_has_base_colour_witness :
  cellAt 0 one_wednesday 0 ∈ cells 0 one_wednesday
  /\ wellFormed (baseColor one_wednesday) = true
  /\ count (cellAt 0 one_wednesday 0) = maxCount one_wednesday
  /\ count (cellAt 0 one_wednesday 0) <= maxCount one_wednesday
  /\ cellColor one_wednesday (cellAt 0 one_wednesday 0)
     = "rgb("
         +:+ pretty (hexValue (String.substring 1 2 (baseColor one_wednesday)))
         +:+ ", "
         +:+ pretty (hexValue (String.substring 3 2 (baseColor one_wednesday)))
         +:+ ", "
         +:+ pretty (hexValue (String.substring 5 2 (baseColor one_wednesday)))
         +:+ ")".
Proof.
  pose proof first_cell_of_one_wednesday as Hc.
  assert (Hf : wellFormed (baseColor one_wednesday) = true) by reflexivity.
  assert (Hm : count (cellAt 0 one_wednesday 0) = maxCount one_wednesday)
    by (by vm_compute).
  split; [exact Hc|]. split; [exact Hf|]. split; [exact Hm|].
  split.
  - exact (proj1 (busiest_cell_has_base_colour 0 one_wednesday _ Hc)).
  - exact (proj2 (busiest_cell_has_base_colour 0 one_wednesday _ Hc) Hf Hm).
Defined.

Lemma every_cell_has_a_colour_witness :
  wellFormed (baseColor one_wednesday) = true
  /\ cellAt 0 one_wednesday 0 ∈ cells 0 one_wednesday
  /\ ((count (cellAt 0 one_wednesday 0) <= 0
       /\ cellColor one_wednesday (cellAt 0 one_wednesday 0) = "#ebedf0")
      \/ (0 < count (cellAt 0 one_wednesday 0)
          /\ exists r g b,
               cellColor one_wednesday (cellAt 0 one_wednesday 0)
               = "rgb(" +:+ pretty r +:+ ", " +:+ pretty g +:+ ", "
                   +:+ pretty b +:+ ")"
               /\ hexValue (String.substring 1 2 (baseColor one_wednesday))
                  <= r <= 255
               /\ hexValue (String.substring 3 2 (baseColor one_wednesday))
                  <= g <= 255
               /\ hexValue (String.substring 5 2 (baseColor one_wednesday))
                  <= b <= 255)).
Proof.
  assert (Hf : wellFormed (baseColor one_wednesday) = true) by reflexivity.
  pose proof first_cell_of_one_wednesday as Hc.
  split; [exact Hf|]. split; [exact Hc|].
  exact (every_cell_has_a_colour 0 one_wednesday _ Hf Hc).
Defined.

Lemma positive_count_is_not_white_witness :
  0 < 5 /\ 0 < 1 /\ 0 <= 35 <= 253
  /\ (c0_35 <= intensity 1 5)%Q
  /\ mix (intensity 1 5) (Some 35) = Some (mixValue (intensity 1 5) 35)
  /\ 35 <= mixValue (intensity 1 5) 35 <= 254.
Proof.
  assert (Hm : 0 < 5) by lia. assert (Hc : 0 < 1) by lia.
  assert (Hch : 0 <= 35 <= 253) by lia.
  split; [exact Hm|]. split; [exact Hc|]. split; [exact Hch|].
  exact (positive_count_is_not_white 1 5 35 Hm Hc Hch).
Defined.

Lemma key_of_local_midnight_witness :
  - msPerDay < oneHourAhead < msPerDay
  /\ LocalTime oneHourAhead (startDate one_wednesday_ahead) mod msPerDay = 0
  /\ 0 <= 2 < totalDays oneHourAhead one_wednesday_ahead
  /\ exists c,
       cells oneHourAhead one_wednesday_ahead !! Z.to_nat 2 = Some c
       /\ LocalTime oneHourAhead (date c) mod msPerDay = 0
       /\ count c
          = default 0
              (data one_wednesday_ahead
                 !! String.substring 0 10
                      (isoDateString
                         (Day (LocalTime oneHourAhead (date c))
                          - (if 0 <? oneHourAhead then 1 else 0)))).
Proof.
  assert (Htz : - msPerDay < oneHourAhead < msPerDay)
    by (vm_compute; split; congruence).
  assert (Hmid : LocalTime oneHourAhead (startDate one_wednesday_ahead)
                 mod msPerDay = 0) by reflexivity.
  assert (Hi : 0 <= 2 < totalDays oneHourAhead one_wednesday_ahead)
    by (vm_compute; split; congruence).
  split; [exact Htz|]. split; [exact Hmid|]. split; [exact Hi|].
  exact (key_of_local_midnight oneHourAhead one_wednesday_ahead 2 Htz Hmid Hi).
Defined.


Lemma circle_inscribed_witness :
  0 <= cellSize one_wednesday /\ 0 <= cellSpacing one_wednesday
  /\ svgWidth 0 one_wednesday < 2 ^ 50 /\ svgHeight one_wednesday < 2 ^ 50
  /\ cellAt 0 one_wednesday 0 ∈ cells 0 one_wednesday
  /\ (circle_cx (circleOf one_wednesday (cellAt 0 one_wednesday 0))
      - circle_r (circleOf one_wednesday (cellAt 0 one_wednesday 0))
      == inject_Z (rect_x (rectOf one_wednesday (cellAt 0 one_wednesday 0))))%Q
  /\ (circle_cx (circleOf one_wednesday (cellAt 0 one_wednesday 0))
      + circle_r (circleOf one_wednesday (cellAt 0 one_wednesday 0))
      == inject_Z (rect_x (rectOf one_wednesday (cellAt 0 one_wednesday 0))
                   + rect_width (rectOf one_wednesday (cellAt 0 one_wednesday 0))))%Q
  /\ (circle_cy (circleOf one_wednesday (cellAt 0 one_wednesday 0))
      - circle_r (circleOf one_wednesday (cellAt 0 one_wednesday 0))
      == inject_Z (rect_y (rectOf one_wednesday (cellAt 0 one_wednesday 0))))%Q
  /\ (circle_cy (circleOf one_wednesday (cellAt 0 one_wednesday 0))
      + circle_r (circleOf one_wednesday (cellAt 0 one_wednesday 0))
      == inject_Z (rect_y (rectOf one_wednesday (cellAt 0 one_wednesday 0))
                   + rect_height (rectOf one_wednesday (cellAt 0 one_wednesday 0))))%Q.
Proof.
  assert (Hs : 0 <= cellSize one_wednesday) by (vm_compute; congruence).
  assert (Hg : 0 <= cellSpacing one_wednesday) by (vm_compute; congruence).
  assert (Hw : svgWidth 0 one_wednesday < 2 ^ 50) by reflexivity.
  assert (Hh : svgHeight one_wednesday < 2 ^ 50) by reflexivity.
  pose proof first_cell_of_one_wednesday as Hc.
  split; [exact Hs|]. split; [exact Hg|]. split; [exact Hw|].
  split; [exact Hh|]. split; [exact Hc|].
  exact (circle_inscribed 0 one_wednesday _ Hs Hg Hw Hh Hc).
Defined.

Lemma layout_quotients_in_binary64_witness :
  - 2 ^ 49 < totalDays 0 thirteen_months < 2 ^ 49
  /\ Qceiling (div (ofZ (totalDays 0 thirteen_months)) (ofZ 7))
     = totalWeeks 0 thirteen_months
  /\ forall i, 0 <= i < totalDays 0 thirteen_months ->
       x (cellAt 0 thirteen_months i)
       = Qfloor (div (ofZ i) (ofZ 7))
         * (cellSize thirteen_months + cellSpacing thirteen_months).
Proof.
  assert (Ht : - 2 ^ 49 < totalDays 0 thirteen_months < 2 ^ 49)
    by (vm_compute; split; congruence).
  split; [exact Ht|].
  exact (layout_quotients_in_binary64 0 thirteen_months Ht).
Defined.
